(** * Mean-reversion backtest: factor transform, pipeline and rebalancing

    A shallow embedding of the zipline notebook
    (MeanReversion.compute, compute_factors, before_trading_start,
    rebalance, exec_trades, initialize) and of the column relabelling of
    the alphalens notebook, with the properties the specification states
    and further properties read off the code.

    Numbers are IEEE-754 binary64 values, as in numpy: Rocq's primitive
    floats.  The pandas reductions (DataFrame.mean, DataFrame.std) and the
    zipline ranking filters (Factor.rank/top/bottom) are library code; their
    documented behaviour is written out next to the notebook code that
    calls them. *)

From Stdlib Require Import ZArith Floats Uint63 Lia Bool String Sorted Permutation.
From Stdlib Require Ascii Decimal DecimalString.
From stdpp Require Import base option list strings gmap sets.

Set Warnings "-inexact-float".

(* ===================================================================== *)
(** * Python values: exceptions and results *)
(* ===================================================================== *)

(** Exceptions that can reach the caller.  [EngineError] stands for whatever
    exception type an external library raises. *)
Inductive PyExn : Type :=
  | IndexError
  | ValueError
  | EngineError (code : nat).

Inductive result (A : Type) : Type :=
  | Ok (a : A)
  | Raise (e : PyExn).
Arguments Ok {A} a.
Arguments Raise {A} e.

Definition rbind {A B} (r : result A) (k : A -> result B) : result B :=
  match r with
  | Ok a => k a
  | Raise e => Raise e
  end.

(* ===================================================================== *)
(** * Algo settings (notebook cell "Settings") *)
(* ===================================================================== *)

Record Settings : Type := {
  MONTH : nat;
  N_LONGS : nat;
  N_SHORTS : nat;
  VOL_SCREEN : nat
}.

Definition YEAR (cfg : Settings) : nat := 12 * MONTH cfg.

Definition notebook_settings : Settings :=
  {| MONTH := 21; N_LONGS := 50; N_SHORTS := 50; VOL_SCREEN := 500 |}.

(* ===================================================================== *)
(** * numpy / pandas numerics on binary64 *)
(* ===================================================================== *)

Definition float_of_nat (n : nat) : float :=
  PrimFloat.of_uint63 (Uint63.of_Z (Z.of_nat n)).

Definition isna (x : float) : bool := PrimFloat.is_nan x.

(** A Series over a [RangeIndex]; a DataFrame as the rows of the 2-D array
    it was built from (row = trading day, column = asset). *)
Abbreviation Series := (list float).
Abbreviation DataFrame := (list (list float)).

Definition pd_DataFrame (values : list (list float)) : DataFrame := values.

Definition ncols (df : DataFrame) : nat :=
  match df with
  | [] => 0
  | r :: _ => length r
  end.

Definition rectangular (df : DataFrame) : Prop :=
  Forall (fun r => length r = ncols df) df.

Definition column (j : nat) (df : DataFrame) : list float :=
  map (fun r => List.nth j r PrimFloat.nan) df.

Definition columns (df : DataFrame) : list (list float) :=
  map (fun j => column j df) (seq 0 (ncols df)).

(** [ndarray.sum] along the rows: left-to-right accumulation. *)
Definition np_sum (xs : list float) : float :=
  fold_left PrimFloat.add xs 0%float.

(** [np.putmask(values, mask, 0)] with [mask = isna(values)]. *)
Definition fillna0 (xs : list float) : list float :=
  map (fun x => if isna x then 0%float else x) xs.

Definition count_notna (xs : list float) : nat :=
  length (filter (fun x => isna x = false) xs).

(** [nanops.nanmean], [skipna=True]: the sum of the values that are not
    NaN over their count; NaN when there is none. *)
Definition nanmean (xs : list float) : float :=
  let count := count_notna xs in
  if (count =? 0)%nat then PrimFloat.nan
  else (np_sum (fillna0 xs) / float_of_nat count)%float.

(** [nanops.nanvar]: [d = count - ddof]; NaN when [count <= ddof]; squared
    deviations [(avg - values) ** 2], masked entries put back to 0. *)
Definition nanvar (ddof : nat) (xs : list float) : float :=
  let count := count_notna xs in
  if (count <=? ddof)%nat then PrimFloat.nan
  else
    let avg := (np_sum (fillna0 xs) / float_of_nat count)%float in
    let sqr := map (fun x => if isna x then 0%float
                             else ((avg - x) * (avg - x))%float) xs in
    (np_sum sqr / (float_of_nat count - float_of_nat ddof))%float.

Definition nanstd (ddof : nat) (xs : list float) : float :=
  PrimFloat.sqrt (nanvar ddof xs).

(** pandas' default for [DataFrame.std]. *)
Definition default_ddof : nat := 1.

(** [df.mean()] and [df.std()]: one value per column (axis 0). *)
Definition df_mean (df : DataFrame) : Series := map nanmean (columns df).
Definition df_std (df : DataFrame) : Series := map (nanstd default_ddof) (columns df).

(** [df.iloc[-1]]: the last row; IndexError on an empty frame. *)
Definition iloc_last (df : DataFrame) : result Series :=
  match last df with
  | Some r => Ok r
  | None => Raise IndexError
  end.

(** Binary operation of two Series, aligned on the union of their range
    indexes; a label missing on one side is NaN there. *)
Definition series_binop (f : float -> float -> float) (a b : Series) : Series :=
  map (fun i => f (List.nth i a PrimFloat.nan) (List.nth i b PrimFloat.nan))
      (seq 0 (max (length a) (length b))).

Definition series_sub : Series -> Series -> Series := series_binop PrimFloat.sub.
Definition series_div : Series -> Series -> Series := series_binop PrimFloat.div.

(** [out[:] = values]: numpy broadcasts a length-1 value, copies an equal
    length one and raises ValueError otherwise. *)
Definition setitem_all (out : list float) (values : list float) : result (list float) :=
  if (length values =? length out)%nat then Ok values
  else match values with
       | [v] => Ok (repeat v (length out))
       | _ => Raise ValueError
       end.

(* ===================================================================== *)
(** * Mean Reversion Factor *)
(* ===================================================================== *)

Module MeanReversion.

(** The factor object: its class attributes. *)
Record t : Type := { inputs_window : nat; window_length : nat }.

Definition make (cfg : Settings) : t :=
  {| inputs_window := MONTH cfg; window_length := YEAR cfg |}.

(** [compute(self, today, assets, out, monthly_returns)]; the result is
    the content of [out] when the call returns. *)
Definition compute (self : t) (today : Z) (assets : list nat)
    (out : list float) (monthly_returns : list (list float)) : result (list float) :=
  let df := pd_DataFrame monthly_returns in
  rbind (iloc_last df) (fun latest =>
    setitem_all out (series_div (series_sub latest (df_mean df)) (df_std df))).

End MeanReversion.

(** ** The score as the specification words it *)

(** Arithmetic mean of the [N] values of a window. *)
Definition window_mean (w : list float) : float :=
  (np_sum w / float_of_nat (length w))%float.

(** Sum of squared deviations from the mean. *)
Definition sum_sq_dev (w : list float) : float :=
  np_sum (map (fun x => ((x - window_mean w) * (x - window_mean w))%float) w).

(** Sample standard deviation: denominator [N - 1]. *)
Definition sample_std (w : list float) : float :=
  PrimFloat.sqrt (sum_sq_dev w / (float_of_nat (length w) - 1))%float.

(** Population standard deviation: denominator [N]. *)
Definition population_std (w : list float) : float :=
  PrimFloat.sqrt (sum_sq_dev w / float_of_nat (length w))%float.

(** (latest - mean) / standard deviation. *)
Definition zscore (std : list float -> float) (w : list float) : float :=
  ((List.last w PrimFloat.nan - window_mean w) / std w)%float.


(* ===================================================================== *)
(** * zipline: ranking filters and the factor table *)
(* ===================================================================== *)

(** The order numpy sorts float64 by: [<], with NaN after everything. *)
Definition np_lt (a b : float) : bool :=
  (a <? b)%float || (isna b && negb (isna a)).

(** Stable argsort (numpy's mergesort kind), as insertion of the indices in
    increasing order, each one after the entries that are not greater. *)
Fixpoint insert_sorted (key : nat -> float) (i : nat) (l : list nat) : list nat :=
  match l with
  | [] => [i]
  | j :: l' => if np_lt (key i) (key j) then i :: l else j :: insert_sorted key i l'
  end.

Definition argsort (data : list float) : list nat :=
  fold_left (fun acc i => insert_sorted (fun k => List.nth k data PrimFloat.nan) i acc)
            (seq 0 (length data)) [].

(** Position of the first occurrence of [i]. *)
Fixpoint position (i : nat) (l : list nat) : nat :=
  match l with
  | [] => 0
  | j :: l' => if (i =? j)%nat then 0 else S (position i l')
  end.

(** [rankdata_2d_ordinal] on one row: [out[sort_idxs[j]] = j + 1]. *)
Definition rankdata_ordinal (data : list float) : list nat :=
  let sort_idxs := argsort data in
  map (fun i => S (position i sort_idxs)) (seq 0 (length data)).

(** [masked_rankdata_2d] with the 'ordinal' method: descending ranks sort
    the negated data; a missing score has rank NaN, here [None]. *)
Definition rank (ascending : bool) (data : list float) : list (option nat) :=
  let keys := if ascending then data else map PrimFloat.opp data in
  map (fun '(x, r) => if isna x then None else Some r)
      (zip data (rankdata_ordinal keys)).

(** [rank <= N]; a comparison with NaN is false. *)
Definition rank_le (N : nat) (r : option nat) : bool :=
  match r with
  | Some k => (k <=? N)%nat
  | None => false
  end.

(** [Factor.top(N)] and [Factor.bottom(N)], ranked over every asset of the
    day (no [mask] argument is given). *)
Definition top (N : nat) (data : list float) : list bool :=
  map (rank_le N) (rank false data).
Definition bottom (N : nat) (data : list float) : list bool :=
  map (rank_le N) (rank true data).

(** One row of the pipeline output. *)
Record FactorRow : Type := {
  row_asset : nat;
  longs : bool;
  shorts : bool;
  ranking : option nat
}.

(** What the engine feeds the pipeline on one day: the assets that exist,
    the MeanReversion score and the 30-day average dollar volume of each. *)
Record DayInputs : Type := {
  universe : list nat;
  mean_reversion : list float;
  dollar_volume : list float
}.

Definition well_formed (d : DayInputs) : Prop :=
  length (mean_reversion d) = length (universe d) /\
  length (dollar_volume d) = length (universe d) /\
  NoDup (universe d).

(** [Pipeline(columns={...}, screen=...)]. *)
Record Pipeline : Type := {
  col_longs : DayInputs -> list bool;
  col_shorts : DayInputs -> list bool;
  col_ranking : DayInputs -> list (option nat);
  screen : DayInputs -> list bool
}.

Definition compute_factors (cfg : Settings) : Pipeline :=
  {| col_longs := fun d => bottom (N_LONGS cfg) (mean_reversion d);
     col_shorts := fun d => top (N_SHORTS cfg) (mean_reversion d);
     col_ranking := fun d => rank false (mean_reversion d);
     screen := fun d => top (VOL_SCREEN cfg) (dollar_volume d) |}.

(** The row of the asset at position [i] of the universe; rows that fail
    the screen are dropped from the output. *)
Definition pipeline_row (p : Pipeline) (d : DayInputs) (i : nat) : option FactorRow :=
  if List.nth i (screen p d) false then
    match universe d !! i with
    | Some a =>
        Some {| row_asset := a;
                longs := List.nth i (col_longs p d) false;
                shorts := List.nth i (col_shorts p d) false;
                ranking := List.nth i (col_ranking p d) None |}
    | None => None
    end
  else None.

Definition run_pipeline (p : Pipeline) (d : DayInputs) : list FactorRow :=
  omap (pipeline_row p d) (seq 0 (length (universe d))).

(** [factor_data.index] and [assets[factor_data.<column>]]. *)
Definition index (factor_data : list FactorRow) : list nat :=
  map row_asset factor_data.
Definition index_where (col : FactorRow -> bool) (factor_data : list FactorRow) : list nat :=
  map row_asset (List.filter col factor_data).

(** The MeanReversion term of the day: [compute] fills a fresh [out]. *)
Definition mean_reversion_term (cfg : Settings) (today : Z) (assets : list nat)
    (monthly_returns : list (list float)) : result (list float) :=
  MeanReversion.compute (MeanReversion.make cfg) today assets
    (repeat PrimFloat.nan (length assets)) monthly_returns.

Definition factor_pipeline (cfg : Settings) (today : Z) (assets : list nat)
    (monthly_returns : list (list float)) (adv : list float) : result (list FactorRow) :=
  rbind (mean_reversion_term cfg today assets monthly_returns) (fun scores =>
    Ok (run_pipeline (compute_factors cfg)
          {| universe := assets; mean_reversion := scores; dollar_volume := adv |})).

(* ===================================================================== *)
(** * The engine API and the callbacks *)
(* ===================================================================== *)

Record Order : Type := { order_asset : nat; order_id : nat }.

Inductive RecordValue : Type :=
  | RecRanking (v : list (nat * option nat))
  | RecPrices (v : list float).

Record LogLine : Type := {
  log_date : Z; log_longs : nat; log_shorts : nat; log_value : float
}.

(** The calls the callbacks make into zipline, indexed by what they return:
    [pipeline_output(name)], the write and the read of the attribute
    [context.factor_data] (the context object is the engine's),
    [record(name=value)], [data.current(assets, field)],
    [data.can_trade(asset)], [get_open_orders(asset)],
    [order_target_percent(asset, target)],
    [context.portfolio.positions.keys()],
    [context.portfolio.portfolio_value], [get_datetime()] and [log.info]. *)
Inductive Call : Type -> Type :=
  | pipeline_output (name : string) : Call (list FactorRow)
  | set_factor_data (factor_data : list FactorRow) : Call unit
  | get_factor_data : Call (list FactorRow)
  | record (name : string) (v : RecordValue) : Call unit
  | data_current (assets : list nat) (field : string) : Call (list float)
  | data_can_trade (asset : nat) : Call bool
  | get_open_orders (asset : nat) : Call (list Order)
  | order_target_percent (asset : nat) (target : float) : Call (option nat)
  | portfolio_positions_keys : Call (gset nat)
  | portfolio_value : Call float
  | get_datetime : Call Z
  | log_info (line : LogLine) : Call unit.

(** A callback body: a tree of engine calls.  The notebook has no
    try/except, so the tree has no node that handles an exception. *)
Inductive Prog (A : Type) : Type :=
  | Ret (a : A)
  | Do {X : Type} (c : Call X) (k : X -> Prog A).
Arguments Ret {A} a.
Arguments Do {A X} c k.

Fixpoint prog_bind {A B} (p : Prog A) (f : A -> Prog B) : Prog B :=
  match p with
  | Ret a => f a
  | Do c k => Do c (fun x => prog_bind (k x) f)
  end.

Definition call {X} (c : Call X) : Prog X := Do c Ret.

Notation "x <- p ;; q" := (prog_bind p (fun x => q))
  (at level 100, p at next level, right associativity).
Notation "p ;;; q" := (prog_bind p (fun _ => q))
  (at level 100, right associativity).

(** Handles of the two objects the engine passes to the callbacks. *)
Inductive context_t : Type := Context.
Inductive bardata_t : Type := BarData.

Definition before_trading_start (context : context_t) (data : bardata_t) : Prog unit :=
  fd <- call (pipeline_output "factor_pipeline") ;;
  call (set_factor_data fd) ;;;
  fd1 <- call get_factor_data ;;
  call (record "factor_data" (RecRanking (map (fun r => (row_asset r, ranking r)) fd1))) ;;;
  fd2 <- call get_factor_data ;;
  let assets := index fd2 in
  prices <- call (data_current assets "price") ;;
  call (record "prices" (RecPrices prices)).

Fixpoint exec_trades (data : bardata_t) (assets : list nat) (target_percent : float)
  : Prog unit :=
  match assets with
  | [] => Ret tt
  | asset :: rest =>
      (tradeable <- call (data_can_trade asset) ;;
       if tradeable then
         open <- call (get_open_orders asset) ;;
         match open with
         | [] => call (order_target_percent asset target_percent) ;;; Ret tt
         | _ :: _ => Ret tt
         end
       else Ret tt) ;;;
      exec_trades data rest target_percent
  end.

(** [1 / N_LONGS if N_LONGS else 0] and [-1 / N_SHORTS if N_SHORTS else 0]. *)
Definition long_target (cfg : Settings) : float :=
  if (N_LONGS cfg =? 0)%nat then 0%float else (1 / float_of_nat (N_LONGS cfg))%float.
Definition short_target (cfg : Settings) : float :=
  if (N_SHORTS cfg =? 0)%nat then 0%float else ((- 1) / float_of_nat (N_SHORTS cfg))%float.

(** [longs.union(shorts)], as the set of its labels. *)
Definition index_union (a b : list nat) : gset nat := list_to_set (a ++ b).

Definition long_set (factor_data : list FactorRow) : list nat := index_where longs factor_data.
Definition short_set (factor_data : list FactorRow) : list nat := index_where shorts factor_data.
Definition divest_set (factor_data : list FactorRow) (held : gset nat) : gset nat :=
  held ∖ index_union (long_set factor_data) (short_set factor_data).

Definition rebalance (cfg : Settings) (context : context_t) (data : bardata_t) : Prog unit :=
  factor_data <- call get_factor_data ;;
  let longs := long_set factor_data in
  let shorts := short_set factor_data in
  held <- call portfolio_positions_keys ;;
  let divest := held ∖ index_union longs shorts in
  now <- call get_datetime ;;
  value <- call portfolio_value ;;
  call (log_info {| log_date := now; log_longs := length longs;
                    log_shorts := length shorts; log_value := value |}) ;;;
  exec_trades data (elements divest) 0%float ;;;
  exec_trades data longs (long_target cfg) ;;;
  exec_trades data shorts (short_target cfg).

(** ** Running a callback against an engine *)

(** An engine answers each call from its state, or raises. *)
Definition Handler (W : Type) : Type := forall X, Call X -> W -> result (X * W).

Inductive Event : Type :=
  | Returned {X : Type} (c : Call X) (x : X)
  | Raised {X : Type} (c : Call X) (e : PyExn).

(** The calls made, in order, and how the callback ends. *)
Fixpoint run {W A} (h : Handler W) (p : Prog A) (w : W) : list Event * result (A * W) :=
  match p with
  | Ret a => ([], Ok (a, w))
  | Do c k =>
      match h _ c w with
      | Ok (x, w') => let '(tr, r) := run h (k x) w' in (Returned c x :: tr, r)
      | Raise e => ([Raised c e], Raise e)
      end
  end.

(** What an event is. *)
Definition is_order (ev : Event) (asset : nat) (target : float) : Prop :=
  match ev with
  | Returned c _ | Raised c _ =>
      match c with
      | order_target_percent a t => a = asset /\ t = target
      | _ => False
      end
  end.

Definition answered_tradeable (ev : Event) (asset : nat) : Prop :=
  match ev with
  | @Returned X c x =>
      match c in Call X0 return X0 -> Prop with
      | data_can_trade a => fun b => a = asset /\ b = true
      | _ => fun _ => False
      end x
  | Raised _ _ => False
  end.

Definition answered_no_open_order (ev : Event) (asset : nat) : Prop :=
  match ev with
  | @Returned X c x =>
      match c in Call X0 return X0 -> Prop with
      | get_open_orders a => fun o => a = asset /\ o = []
      | _ => fun _ => False
      end x
  | Raised _ _ => False
  end.


(** ** A small simulated engine, to run the callbacks on concrete days *)

Record World : Type := {
  pipeline_today : list FactorRow;
  context_factor_data : option (list FactorRow);
  tradeable : list nat;
  open_orders : list Order;
  positions : gset nat;
  value_today : float;
  now_today : Z;
  price_today : nat -> float;
  submitted : list (nat * float)
}.

Definition has_asset (a : nat) (o : Order) : bool := (order_asset o =? a)%nat.

(** Attribute lookup on the context fails until [before_trading_start] has
    set it; an unknown pipeline name fails; an accepted order stays open for
    the rest of the tick. *)
Definition sim : Handler World := fun X c =>
  match c in Call X0 return World -> result (X0 * World) with
  | pipeline_output name => fun w =>
      if String.eqb name "factor_pipeline" then Ok (pipeline_today w, w)
      else Raise (EngineError 1)
  | set_factor_data fd => fun w =>
      Ok (tt, {| pipeline_today := pipeline_today w;
                 context_factor_data := Some fd;
                 tradeable := tradeable w; open_orders := open_orders w;
                 positions := positions w; value_today := value_today w;
                 now_today := now_today w; price_today := price_today w;
                 submitted := submitted w |})
  | get_factor_data => fun w =>
      match context_factor_data w with
      | Some fd => Ok (fd, w)
      | None => Raise (EngineError 2)
      end
  | record _ _ => fun w => Ok (tt, w)
  | data_current assets _ => fun w => Ok (map (price_today w) assets, w)
  | data_can_trade a => fun w => Ok (existsb (Nat.eqb a) (tradeable w), w)
  | get_open_orders a => fun w => Ok (List.filter (has_asset a) (open_orders w), w)
  | order_target_percent a t => fun w =>
      let id := length (submitted w) in
      Ok (Some id,
          {| pipeline_today := pipeline_today w;
             context_factor_data := context_factor_data w;
             tradeable := tradeable w;
             open_orders := {| order_asset := a; order_id := id |} :: open_orders w;
             positions := positions w; value_today := value_today w;
             now_today := now_today w; price_today := price_today w;
             submitted := submitted w ++ [(a, t)] |})
  | portfolio_positions_keys => fun w => Ok (positions w, w)
  | portfolio_value => fun w => Ok (value_today w, w)
  | get_datetime => fun w => Ok (now_today w, w)
  | log_info _ => fun w => Ok (tt, w)
  end.

(** The same engine with an order desk that rejects every order. *)
Definition sim_rejecting : Handler World := fun X c =>
  match c in Call X0 return World -> result (X0 * World) with
  | order_target_percent _ _ => fun _ => Raise (EngineError 3)
  | c' => sim _ c'
  end.




(** ** Properties of traces *)

(** Every order follows, with nothing in between, a [can_trade] answered
    True and a [get_open_orders] answered with no order, for its asset. *)
Definition guarded (tr : list Event) : Prop :=
  forall i ev a t, tr !! i = Some ev -> is_order ev a t ->
    exists j e1 e2, i = S (S j) /\ tr !! j = Some e1 /\ tr !! S j = Some e2 /\
      answered_tradeable e1 a /\ answered_no_open_order e2 a.




(** The three rounds of trades of [rebalance]. *)
Definition trades (cfg : Settings) (data : bardata_t)
    (factor_data : list FactorRow) (held : gset nat) : Prog unit :=
  exec_trades data (elements (divest_set factor_data held)) 0%float ;;;
  exec_trades data (long_set factor_data) (long_target cfg) ;;;
  exec_trades data (short_set factor_data) (short_target cfg).

(** The shape of a rebalancing run: five calls, then the three rounds of
    trades. *)
Inductive rebalance_run {W} (h : Handler W) (cfg : Settings) (data : bardata_t)
    (w : W) : list Event * result (unit * W) -> Prop :=
  | rr_no_factor_data e :
      rebalance_run h cfg data w ([Raised get_factor_data e], Raise e)
  | rr_no_positions fd e :
      rebalance_run h cfg data w
        ([Returned get_factor_data fd; Raised portfolio_positions_keys e], Raise e)
  | rr_failed_before_trades fd held tr e :
      length tr <= 3 -> Forall (fun ev => forall a t, ~ is_order ev a t) tr ->
      rebalance_run h cfg data w
        (Returned get_factor_data fd :: Returned portfolio_positions_keys held :: tr, Raise e)
  | rr_trades fd held now value w5 :
      rebalance_run h cfg data w
        (Returned get_factor_data fd :: Returned portfolio_positions_keys held ::
         Returned get_datetime now :: Returned portfolio_value value ::
         Returned (log_info {| log_date := now; log_longs := length (long_set fd);
                               log_shorts := length (short_set fd);
                               log_value := value |}) tt ::
         (run h (trades cfg data fd held) w5).1,
         (run h (trades cfg data fd held) w5).2).



(* ===================================================================== *)
(** * Notions used in the statements *)
(* ===================================================================== *)


(** A key in Z^3 whose lexicographic order is numpy's sort order: negative
    infinity, negative numbers, the zeros, positive numbers, positive
    infinity, NaN. *)
Definition sf_key (x : spec_float) : Z * Z * Z :=
  match x with
  | S754_infinity true => (-2, 0, 0)%Z
  | S754_finite true m e => (-1, - e, Z.neg m)%Z
  | S754_zero _ => (0, 0, 0)%Z
  | S754_finite false m e => (1, e, Z.pos m)%Z
  | S754_infinity false => (2, 0, 0)%Z
  | S754_nan => (3, 0, 0)%Z
  end.

Definition fkey (x : float) : Z * Z * Z := sf_key (Prim2SF x).

Definition lex_lt (k1 k2 : Z * Z * Z) : Prop :=
  (k1.1.1 < k2.1.1 \/
   (k1.1.1 = k2.1.1 /\ (k1.1.2 < k2.1.2 \/ (k1.1.2 = k2.1.2 /\ k1.2 < k2.2))))%Z.

Definition is_nan_key (k : Z * Z * Z) : Prop := (k.1.1 = 3)%Z.


(** The score at a position, and whether it is defined. *)
Definition key_of (data : list float) (k : nat) : float := List.nth k data PrimFloat.nan.

Definition valid_at (data : list float) (i : nat) : Prop := isna (key_of data i) = false.

#[global] Instance valid_at_dec data i : Decision (valid_at data i).
Proof. unfold valid_at. apply _. Defined.

(** The keys that [rank] sorts. *)
Definition sort_keys (ascending : bool) (data : list float) : list float :=
  if ascending then data else map PrimFloat.opp data.

(** Zero-based place of asset [i] in the sorted order. *)
Definition place (ascending : bool) (data : list float) (i : nat) : nat :=
  position i (argsort (sort_keys ascending data)).

(** Defined scores are pairwise different. *)
Definition distinct_scores (data : list float) : Prop :=
  forall a b, a <> b -> valid_at data a -> valid_at data b ->
    (key_of data a =? key_of data b)%float = false.

(** The order of a stable sort: by key, ties by index. *)
Definition before (key : nat -> float) (a b : nat) : Prop :=
  lex_lt (fkey (key a)) (fkey (key b)) \/ (fkey (key a) = fkey (key b) /\ a < b).

(** [argsort] on the first [n] indices of a key function. *)
Definition sort_upto (key : nat -> float) (n : nat) : list nat :=
  fold_left (fun acc i => insert_sorted key i acc) (seq 0 n) [].

(** The assets in sorted order, and those of them with a defined score. *)
Definition sorted_order (ascending : bool) (data : list float) : list nat :=
  argsort (sort_keys ascending data).
Definition valid_order (ascending : bool) (data : list float) : list nat :=
  filter (valid_at data) (sorted_order ascending data).

(* ===================================================================== *)
(** * Concrete days and windows *)
(* ===================================================================== *)




Definition day3 : DayInputs :=
  {| universe := [1; 2; 3];
     mean_reversion := [1; 2; 3]%float;
     dollar_volume := [10; 30; 20]%float |}.

Definition small_settings : Settings :=
  {| MONTH := 21; N_LONGS := 2; N_SHORTS := 2; VOL_SCREEN := 5 |}.

Definition screened_settings : Settings :=
  {| MONTH := 21; N_LONGS := 2; N_SHORTS := 2; VOL_SCREEN := 4 |}.

Definition day5 : DayInputs :=
  {| universe := [1; 2; 3; 4; 5];
     mean_reversion := [1; 2; 3; 4; 5]%float;
     dollar_volume := [10; 50; 40; 30; 20]%float |}.

Definition window3 : list (list float) :=
  [[0.01; 0.02; 0.5]; [0.03; 0.01; 0.5]; [0.02; 0.06; 0.5]]%float.

Definition day_ties : DayInputs :=
  {| universe := [1; 2; 3; 4];
     mean_reversion := [5; 5; 5; 5]%float;
     dollar_volume := [1; 1; 1; 1]%float |}.

Definition day_missing : DayInputs :=
  {| universe := [1; 2; 3; 4];
     mean_reversion := [1; PrimFloat.nan; 2; PrimFloat.nan]%float;
     dollar_volume := [1; 1; 1; 1]%float |}.

Definition world_of (fd : list FactorRow) (can : list nat) : World :=
  {| pipeline_today := fd;
     context_factor_data := Some fd;
     tradeable := can;
     open_orders := [];
     positions := {[ 2; 9 ]};
     value_today := 10000000%float;
     now_today := 0%Z;
     price_today := fun _ => 1%float;
     submitted := [] |}.

(* ===================================================================== *)
(** * Set-up of the algorithm (notebook cell "Initialization") *)
(* ===================================================================== *)

(** The rule objects built in [initialize], each called with no argument. *)
Inductive date_rule : Type := week_start.
Inductive time_rule : Type := market_open.
Inductive calendar : Type := US_EQUITIES.

Record PerShare : Type := { cost : float; min_trade_cost : float }.
Record VolumeShareSlippage : Type := { volume_limit : float; price_impact : float }.

(** The calls of [initialize] into zipline; none returns a value. *)
Inductive SetupCall : Type :=
  | attach_pipeline (pipeline : Pipeline) (name : string)
  | schedule_function (func : context_t -> bardata_t -> Prog unit)
      (drule : date_rule) (trule : time_rule) (cal : calendar)
  | set_commission (us_equities : PerShare)
  | set_slippage (us_equities : VolumeShareSlippage).

Definition initialize (cfg : Settings) (context : context_t) : list SetupCall :=
  [ attach_pipeline (compute_factors cfg) "factor_pipeline";
    schedule_function (rebalance cfg) week_start market_open US_EQUITIES;
    set_commission {| cost := 0.00075; min_trade_cost := 0.01 |};
    set_slippage {| volume_limit := 0.0025; price_impact := 0.01 |} ].

(** What the algorithm object keeps of the set-up. *)
Record Schedule : Type := {
  sched_func : context_t -> bardata_t -> Prog unit;
  sched_date : date_rule;
  sched_time : time_rule;
  sched_calendar : calendar
}.

Record Algo : Type := {
  pipelines : gmap string Pipeline;
  schedules : list Schedule;
  commission : option PerShare;
  slippage : option VolumeShareSlippage
}.

(** A new algorithm: nothing attached, nothing scheduled, the engine's
    default cost models. *)
Definition new_algo : Algo :=
  {| pipelines := ∅; schedules := []; commission := None; slippage := None |}.

(** One set-up call.  [attach_pipeline] refuses a name that is already
    attached (zipline's DuplicatePipelineName). *)
Definition setup (c : SetupCall) (a : Algo) : result Algo :=
  match c with
  | attach_pipeline p name =>
      match pipelines a !! name with
      | Some _ => Raise (EngineError 4)
      | None => Ok {| pipelines := <[name := p]> (pipelines a);
                      schedules := schedules a;
                      commission := commission a; slippage := slippage a |}
      end
  | schedule_function f d t cal =>
      Ok {| pipelines := pipelines a;
            schedules := schedules a ++ [ {| sched_func := f; sched_date := d;
                                             sched_time := t; sched_calendar := cal |} ];
            commission := commission a; slippage := slippage a |}
  | set_commission m =>
      Ok {| pipelines := pipelines a; schedules := schedules a;
            commission := Some m; slippage := slippage a |}
  | set_slippage m =>
      Ok {| pipelines := pipelines a; schedules := schedules a;
            commission := commission a; slippage := Some m |}
  end.

Fixpoint run_setup (calls : list SetupCall) (a : Algo) : result Algo :=
  match calls with
  | [] => Ok a
  | c :: rest => rbind (setup c a) (run_setup rest)
  end.

(** The simulated engine of a set-up algorithm on one day:
    [pipeline_output(name)] runs the pipeline attached under [name] on the
    day's inputs and fails for a name that was never attached (zipline's
    NoSuchPipeline). *)
Definition engine (a : Algo) (d : DayInputs) : Handler World := fun X c =>
  match c in Call X0 return World -> result (X0 * World) with
  | pipeline_output name => fun w =>
      match pipelines a !! name with
      | Some p => Ok (run_pipeline p d, w)
      | None => Raise (EngineError 1)
      end
  | c' => sim _ c'
  end.

(* ===================================================================== *)
(** * alphalens notebook: column labels from asset names *)
(* ===================================================================== *)

(** Python strings as lists of characters. *)
Abbreviation chars := (list Ascii.ascii).

Definition newline : Ascii.ascii := Ascii.ascii_of_nat 10.
Definition lbracket : Ascii.ascii := Ascii.ascii_of_nat 91.
Definition rbracket : Ascii.ascii := Ascii.ascii_of_nat 93.

(** The rest of the current line: [.] matches any character but a newline. *)
Fixpoint line_of (s : chars) : chars :=
  match s with
  | [] => []
  | c :: rest => if Ascii.eqb c newline then [] else c :: line_of rest
  end.

(** Index of the last occurrence of [c]. *)
Fixpoint rindex (c : Ascii.ascii) (s : chars) : option nat :=
  match s with
  | [] => None
  | x :: rest =>
      match rindex c rest with
      | Some k => Some (S k)
      | None => if Ascii.eqb x c then Some 0 else None
      end
  end.

(** The match of [(.+)\]] right after a [[]: the greedy [.+] takes at least
    one character and as many as the line allows, up to its last []]. *)
Definition group_at (rest : chars) : option chars :=
  match line_of rest with
  | [] => None
  | x :: line =>
      match rindex rbracket line with
      | Some k => Some (x :: take k line)
      | None => None
      end
  end.

(** [re.findall(r"\[(.+)\]", s)]: the groups of the matches, leftmost first,
    the scan resuming after each match.  Every step consumes a character,
    so [length s] steps are enough. *)
Fixpoint findall_from (fuel : nat) (s : chars) : list chars :=
  match fuel with
  | 0 => []
  | S fuel' =>
      match s with
      | [] => []
      | c :: rest =>
          if Ascii.eqb c lbracket then
            match group_at rest with
            | Some g => g :: findall_from fuel' (drop (S (length g)) rest)
            | None => findall_from fuel' rest
            end
          else findall_from fuel' rest
      end
  end.

Definition re_findall (s : string) : list string :=
  map string_of_list_ascii (findall_from (String.length s) (list_ascii_of_string s)).

(** [str(asset)] of a zipline Equity: ['Equity(%d [%s])'] with the sid and
    the symbol, ['Equity(%d)'] when the symbol is empty. *)
Definition str_Equity (sid : nat) (symbol : string) : string :=
  let sid_d := DecimalString.NilZero.string_of_uint (Nat.to_uint sid) in
  match symbol with
  | EmptyString => "Equity(" +:+ sid_d +:+ ")"
  | _ => "Equity(" +:+ sid_d +:+ " [" +:+ symbol +:+ "])"
  end.

(** One entry of [[re.findall(r"\[(.+)\]", str(col))[0] for col in ...]]. *)
Definition column_label (col : string) : result string :=
  match re_findall col with
  | [] => Raise IndexError
  | g :: _ => Ok g
  end.

(* ===================================================================== *)
(** * Further notions used in the statements *)
(* ===================================================================== *)

(** The orders requested in a trace, in the order of the calls. *)
Definition order_of (ev : Event) : option (nat * float) :=
  match ev with
  | Returned c _ | Raised c _ =>
      match c with
      | order_target_percent a t => Some (a, t)
      | _ => None
      end
  end.

Definition orders_of (tr : list Event) : list (nat * float) := omap order_of tr.

(** The orders a round of [exec_trades] can request, in sequence. *)
Definition round (assets : list nat) (target : float) : list (nat * float) :=
  map (fun a => (a, target)) assets.

(** The context behaves as a Python object: an attribute holds what was
    last assigned to it, and the other calls of [before_trading_start]
    leave it alone. *)
Definition attribute_store {W} (h : Handler W) (attr : W -> option (list FactorRow)) : Prop :=
  (forall fd w u w', h _ (set_factor_data fd) w = Ok (u, w') -> attr w' = Some fd) /\
  (forall w fd w', h _ get_factor_data w = Ok (fd, w') -> attr w = Some fd /\ attr w' = Some fd) /\
  (forall name v w u w', h _ (record name v) w = Ok (u, w') -> attr w' = attr w) /\
  (forall assets field w p w', h _ (data_current assets field) w = Ok (p, w') -> attr w' = attr w).

(** An order for the asset is open. *)
Definition open_for (w : World) (a : nat) : Prop :=
  List.filter (has_asset a) (open_orders w) <> [].

(** The defined ranks of a ranking column. *)
Definition defined_ranks (ranks : list (option nat)) : list nat := omap id ranks.

(** A window of four days and two assets; the second asset has a single
    return in it. *)
Definition window_new_listing : list (list float) :=
  [[0.01; PrimFloat.nan]; [0.03; PrimFloat.nan]; [0.02; PrimFloat.nan]; [0.05; 0.04]]%float.

(** Two assets with the same score between two others. *)
Definition day_one_tie : DayInputs :=
  {| universe := [1; 2; 3; 4];
     mean_reversion := [1; 7; 7; 9]%float;
     dollar_volume := [1; 1; 1; 1]%float |}.

(** [w'] is the engine state [w] after the orders [new] were accepted, each
    for another asset, tradeable and without an open order in [w]. *)
Definition extends (w w' : World) (new : list (nat * float)) : Prop :=
  submitted w' = submitted w ++ new /\
  context_factor_data w' = context_factor_data w /\
  tradeable w' = tradeable w /\
  positions w' = positions w /\
  NoDup (map fst new) /\
  (forall a, open_for w' a <-> open_for w a \/ a ∈ map fst new) /\
  (forall a, a ∈ map fst new -> a ∈ tradeable w /\ ~ open_for w a).

(** Every asset of the list that can trade has an open order. *)
Definition covered (w : World) (assets : list nat) : Prop :=
  forall a, a ∈ assets -> a ∈ tradeable w -> open_for w a.

(** A day on which every asset can trade and asset 9 is pending. *)
Definition world_pending (fd : list FactorRow) : World :=
  {| pipeline_today := fd;
     context_factor_data := Some fd;
     tradeable := [1; 2; 3; 4; 5; 9];
     open_orders := [ {| order_asset := 9; order_id := 0 |} ];
     positions := {[ 2; 9 ]};
     value_today := 10000000%float;
     now_today := 0%Z;
     price_today := fun _ => 1%float;
     submitted := [(9, 0%float)] |}.

(* ===================================================================== *)
(** * Facts about binary64 arithmetic, from the specification of the primitives *)
(* ===================================================================== *)

Lemma binary_round_aux_opp s m e l :
  SpecFloat.binary_round_aux prec emax (negb s) m e l
  = SFopp (SpecFloat.binary_round_aux prec emax s m e l).
Proof.
  unfold SpecFloat.binary_round_aux.
  destruct (shr_fexp prec emax m e l) as [mrs' e'].
  destruct (shr_fexp prec emax _ e' loc_Exact) as [mrs'' e''].
  destruct (shr_m mrs''); try reflexivity.
  destruct (Z.leb e'' (emax - prec)); reflexivity.
Qed.







(** ** Classification *)

Lemma is_nan_spec x : PrimFloat.is_nan x = true <-> Prim2SF x = S754_nan.
Proof.
  unfold PrimFloat.is_nan. rewrite FloatAxioms.eqb_spec. unfold SFeqb.
  destruct (Prim2SF x) as [s|s| |s m e]; simpl.
  - split; discriminate.
  - destruct s; split; discriminate.
  - split; reflexivity.
  - destruct s; rewrite Z.compare_refl, Pos.compare_cont_refl; split; discriminate.
Qed.

Lemma is_infinity_spec x :
  PrimFloat.is_infinity x = true <-> exists s, Prim2SF x = S754_infinity s.
Proof.
  unfold PrimFloat.is_infinity. rewrite FloatAxioms.eqb_spec, FloatAxioms.abs_spec.
  change (Prim2SF infinity) with (S754_infinity false). unfold SFeqb.
  destruct (Prim2SF x) as [s|s| |s m e]; simpl.
  - split; [discriminate|intros [? ?]; discriminate].
  - split; eauto.
  - split; [discriminate|intros [? ?]; discriminate].
  - split; [discriminate|intros [? ?]; discriminate].
Qed.

Lemma is_zero_spec x :
  PrimFloat.is_zero x = true <-> exists s, Prim2SF x = S754_zero s.
Proof.
  unfold PrimFloat.is_zero. rewrite FloatAxioms.eqb_spec.
  change (Prim2SF zero) with (S754_zero false). unfold SFeqb.
  destruct (Prim2SF x) as [s|s| |s m e]; simpl.
  - split; eauto.
  - destruct s; (split; [discriminate|intros [? ?]; discriminate]).
  - split; [discriminate|intros [? ?]; discriminate].
  - destruct s; (split; [discriminate|intros [? ?]; discriminate]).
Qed.

(** Dividing by a zero never gives a finite value: the quotient is NaN
    (0/0, NaN/0) or an infinity. *)
Lemma div_zero_not_finite (x y : float) :
  PrimFloat.is_zero y = true -> PrimFloat.is_finite (x / y)%float = false.
Proof.
  intros Hy. apply is_zero_spec in Hy as [s Hs].
  unfold PrimFloat.is_finite. apply negb_false_iff, orb_true_iff.
  assert (H : Prim2SF (x / y) = S754_nan \/ exists s', Prim2SF (x / y) = S754_infinity s').
  { rewrite FloatAxioms.div_spec, Hs. unfold SF64div, SFdiv.
    destruct (Prim2SF x); eauto. }
  destruct H as [H|H]; [left; apply is_nan_spec, H | right; apply is_infinity_spec, H].
Qed.

(** ** Values that are a zero or NaN *)









Lemma eqb_true_notna a b : (a =? b)%float = true -> PrimFloat.is_nan b = false.
Proof.
  rewrite FloatAxioms.eqb_spec. intros H.
  destruct (PrimFloat.is_nan b) eqn:Hb; [|reflexivity].
  apply is_nan_spec in Hb. rewrite Hb in H. unfold SFeqb, SFcompare in H.
  destruct (Prim2SF a); discriminate.
Qed.

(** * The order of binary64 values *)

Lemma isna_sf x :
  isna x = match Prim2SF x with S754_nan => true | _ => false end.
Proof.
  unfold isna. destruct (PrimFloat.is_nan x) eqn:H.
  - apply is_nan_spec in H. rewrite H. reflexivity.
  - destruct (Prim2SF x) eqn:Hx; try reflexivity.
    apply is_nan_spec in Hx. congruence.
Qed.

Lemma isna_key x : isna x = true <-> is_nan_key (fkey x).
Proof.
  rewrite isna_sf. unfold is_nan_key, fkey.
  destruct (Prim2SF x) as [s|s| |s m e]; try destruct s; simpl; split;
    try discriminate; try reflexivity; lia.
Qed.

Lemma isna_false_key x : isna x = false <-> ~ is_nan_key (fkey x).
Proof. rewrite <- isna_key. destruct (isna x); split; congruence. Qed.

Lemma key_range x : (-2 <= (fkey x).1.1 <= 3)%Z.
Proof. unfold fkey. destruct (Prim2SF x) as [s|s| |s m e]; try destruct s; simpl; lia. Qed.

Ltac cmp_cases :=
  repeat match goal with
  | |- context [Pos.compare_cont Eq ?a ?b] =>
      change (Pos.compare_cont Eq a b) with (Pos.compare a b)
  end;
  repeat match goal with
  | |- context [Z.compare ?a ?b] => destruct (Z.compare_spec a b)
  | |- context [Pos.compare ?a ?b] => destruct (Pos.compare_spec a b)
  end.

Lemma SFltb_lex x y :
  SFltb x y = true <->
  lex_lt (sf_key x) (sf_key y) /\ ~ is_nan_key (sf_key x) /\ ~ is_nan_key (sf_key y).
Proof.
  unfold SFltb, SFcompare, lex_lt, is_nan_key.
  destruct x as [sx|sx| |sx mx ex], y as [sy|sy| |sy my ey];
    try destruct sx; try destruct sy; simpl; cmp_cases; simpl;
    split; try discriminate; try reflexivity; try lia.
Qed.

Lemma SFeqb_lex x y :
  SFeqb x y = true <->
  sf_key x = sf_key y /\ ~ is_nan_key (sf_key x).
Proof.
  unfold SFeqb, SFcompare, is_nan_key.
  destruct x as [sx|sx| |sx mx ex], y as [sy|sy| |sy my ey];
    try destruct sx; try destruct sy; simpl; cmp_cases; simpl;
    split; try discriminate; try reflexivity;
    try (intros [[=] ?]; lia); try (intros _; split; [f_equal; f_equal; lia|lia]);
    try (intros _; split; [reflexivity|lia]); try lia.
Qed.

Lemma ltb_lex a b :
  (a <? b)%float = true <->
  lex_lt (fkey a) (fkey b) /\ ~ is_nan_key (fkey a) /\ ~ is_nan_key (fkey b).
Proof. rewrite FloatAxioms.ltb_spec. apply SFltb_lex. Qed.

Lemma eqb_lex a b :
  (a =? b)%float = true <-> fkey a = fkey b /\ ~ is_nan_key (fkey a).
Proof. rewrite FloatAxioms.eqb_spec. apply SFeqb_lex. Qed.

Lemma key_nan_tail x :
  ((fkey x).1.1 = 3 -> (fkey x).1.2 = 0 /\ (fkey x).2 = 0)%Z.
Proof.
  unfold fkey. destruct (Prim2SF x) as [s|s| |s m e]; try destruct s; simpl; lia.
Qed.

Lemma np_lt_lex a b : np_lt a b = true <-> lex_lt (fkey a) (fkey b).
Proof.
  unfold np_lt. rewrite orb_true_iff, andb_true_iff, negb_true_iff.
  rewrite ltb_lex, isna_key, isna_false_key.
  pose proof (key_range a). pose proof (key_range b).
  pose proof (key_nan_tail a). pose proof (key_nan_tail b).
  unfold lex_lt, is_nan_key in *. split.
  - intros [[H3 _]|[H3 H4]]; [exact H3|lia].
  - intros H3. destruct (Z.eq_dec (fkey b).1.1 3%Z); [right|left]; lia.
Qed.

Lemma np_lt_false_lex a b : np_lt a b = false <-> ~ lex_lt (fkey a) (fkey b).
Proof. rewrite <- np_lt_lex. destruct (np_lt a b); split; congruence. Qed.

(** Negation mirrors the key of a number. *)
Lemma fkey_opp x :
  ~ is_nan_key (fkey x) ->
  fkey (- x)%float = ((- (fkey x).1.1)%Z, (- (fkey x).1.2)%Z, (- (fkey x).2)%Z).
Proof.
  unfold fkey, is_nan_key. rewrite FloatAxioms.opp_spec.
  destruct (Prim2SF x) as [s|s| |s m e]; try destruct s; simpl; try reflexivity; try lia.
  all: intros _; rewrite ?Z.opp_involutive; reflexivity.
Qed.

Lemma isna_opp x : isna (- x)%float = isna x.
Proof.
  rewrite !isna_sf, FloatAxioms.opp_spec.
  destruct (Prim2SF x); reflexivity.
Qed.

Lemma np_lt_opp a b :
  (b <? a)%float = true -> np_lt (- a)%float (- b)%float = true.
Proof.
  rewrite ltb_lex, np_lt_lex. intros (H & Hb & Ha).
  rewrite !fkey_opp by assumption. unfold lex_lt in *. simpl. lia.
Qed.

(** Two numbers that are not NaN are ordered or equal. *)
Lemma float_trichotomy a b :
  isna a = false -> isna b = false ->
  (a <? b)%float = true \/ (a =? b)%float = true \/ (b <? a)%float = true.
Proof.
  intros Ha Hb. apply isna_false_key in Ha, Hb.
  rewrite !ltb_lex, eqb_lex. unfold lex_lt.
  destruct (fkey a) as [[a1 a2] a3], (fkey b) as [[b1 b2] b3]; simpl in *.
  destruct (Z.lt_trichotomy a1 b1) as [?|[?|?]];
    [left; repeat split; auto; lia| |right; right; repeat split; auto; lia].
  destruct (Z.lt_trichotomy a2 b2) as [?|[?|?]];
    [left; repeat split; auto; lia| |right; right; repeat split; auto; lia].
  destruct (Z.lt_trichotomy a3 b3) as [?|[?|?]];
    [left; repeat split; auto; lia| |right; right; repeat split; auto; lia].
  right; left. subst. split; [reflexivity|assumption].
Qed.

(** * The pandas reductions on a window without missing values *)






(** * Rows and columns *)

Lemma lookup_map {A B} (f : A -> B) (l : list A) (i : nat) :
  map f l !! i = f <$> (l !! i).
Proof.
  revert i. induction l as [|x l IH]; intros [|i]; simpl; try reflexivity.
  apply IH.
Qed.

Lemma length_columns df : length (columns df) = ncols df.
Proof. unfold columns. rewrite length_map, length_seq. reflexivity. Qed.

Lemma lookup_columns df j :
  j < ncols df -> columns df !! j = Some (column j df).
Proof.
  intros Hj. unfold columns. rewrite lookup_map, lookup_seq_lt by exact Hj.
  reflexivity.
Qed.

Lemma last_column df r j :
  last df = Some r -> List.last (column j df) PrimFloat.nan = List.nth j r PrimFloat.nan.
Proof.
  unfold column. induction df as [|r0 df IH]; [discriminate|].
  destruct df as [|r1 df]; simpl in *.
  - intros [= ->]. reflexivity.
  - intros H. apply IH, H.
Qed.

Lemma last_rectangular df r :
  rectangular df -> last df = Some r -> length r = ncols df.
Proof.
  intros Hrect Hlast. apply last_Some_elem_of in Hlast.
  unfold rectangular in Hrect. rewrite Forall_forall in Hrect. auto.
Qed.

Lemma length_series_binop f a b :
  length (series_binop f a b) = max (length a) (length b).
Proof. unfold series_binop. rewrite length_map, length_seq. reflexivity. Qed.

Lemma lookup_series_binop f a b i :
  i < max (length a) (length b) ->
  series_binop f a b !! i
  = Some (f (List.nth i a PrimFloat.nan) (List.nth i b PrimFloat.nan)).
Proof.
  intros Hi. unfold series_binop.
  rewrite lookup_map, lookup_seq_lt by exact Hi. reflexivity.
Qed.

Lemma nth_lookup_Some' {A} (l : list A) i d x : l !! i = Some x -> List.nth i l d = x.
Proof.
  revert i. induction l as [|y l IH]; intros [|i]; simpl; try discriminate.
  - intros [= ->]. reflexivity.
  - apply IH.
Qed.

Lemma setitem_all_same_length out values :
  length values = length out -> setitem_all out values = Ok values.
Proof. intros H. unfold setitem_all. rewrite H, Nat.eqb_refl. reflexivity. Qed.

(** The frame-level expression, cell by cell. *)
Lemma compute_cells self today assets out mr :
  rectangular mr -> length out = ncols mr -> 1 <= length mr ->
  exists out',
    MeanReversion.compute self today assets out mr = Ok out' /\
    length out' = ncols mr /\
    forall j, j < ncols mr ->
      out' !! j = Some ((List.last (column j mr) PrimFloat.nan - nanmean (column j mr))
                        / nanstd default_ddof (column j mr))%float.
Proof.
  intros Hrect Hout Hn. unfold MeanReversion.compute, pd_DataFrame, iloc_last.
  destruct (last mr) as [r|] eqn:Hlast.
  2:{ apply last_None in Hlast. subst mr. simpl in Hn. lia. }
  simpl. pose proof (last_rectangular _ _ Hrect Hlast) as Hr.
  set (vals := series_div _ _).
  assert (Hlen : length vals = ncols mr).
  { unfold vals, series_div, series_sub, df_mean, df_std.
    rewrite !length_series_binop, !length_map, length_columns, Hr. lia. }
  exists vals. split; [apply setitem_all_same_length; congruence|].
  split; [exact Hlen|]. intros j Hj.
  unfold vals, series_div, series_sub.
  rewrite lookup_series_binop.
  2:{ rewrite length_series_binop. unfold df_mean, df_std.
      rewrite !length_map, length_columns, Hr. lia. }
  f_equal. f_equal.
  - erewrite (nth_lookup_Some' (series_binop _ _ _)).
    2:{ apply lookup_series_binop. unfold df_mean.
        rewrite length_map, length_columns, Hr. lia. }
    rewrite (last_column _ _ _ Hlast). f_equal.
    unfold df_mean. apply nth_lookup_Some'.
    rewrite lookup_map, lookup_columns by exact Hj. reflexivity.
  - unfold df_std. apply nth_lookup_Some'.
    rewrite lookup_map, lookup_columns by exact Hj. reflexivity.
Qed.




(** The scenario of the specification: twelve monthly returns of one asset. *)
Example spec_scenario :
  MeanReversion.compute (MeanReversion.make notebook_settings) 0 [7] [0%float]
    [[0.01]; [0.02]; [-0.01]; [0.03]; [0.00]; [0.01];
     [-0.02]; [0.04]; [0.01]; [0.00]; [0.02]; [0.05]]%float
  = Ok [1.8196003060100427%float].
Proof. vm_compute. reflexivity. Qed.

(** ** Windows of identical values *)




Lemma eqb_sym a b : (a =? b)%float = (b =? a)%float.
Proof.
  rewrite !FloatAxioms.eqb_spec. unfold SFeqb, SFcompare.
  destruct (Prim2SF a) as [sa|sa| |sa ma ea], (Prim2SF b) as [sb|sb| |sb mb eb];
    try reflexivity; try (destruct sa, sb; reflexivity).
  change (Pos.compare_cont Eq ma mb) with (Pos.compare ma mb).
  change (Pos.compare_cont Eq mb ma) with (Pos.compare mb ma).
  rewrite (Z.compare_antisym ea eb), (Pos.compare_antisym ma mb).
  destruct sa, sb; try reflexivity;
    destruct (Z.compare ea eb); simpl; try reflexivity;
    destruct (Pos.compare ma mb); reflexivity.
Qed.




(** Whenever the standard deviation computed for a column is a zero, the
    score is NaN or infinite. *)
Lemma zero_std_not_finite self today assets out monthly_returns j :
  rectangular monthly_returns ->
  length out = ncols monthly_returns ->
  1 <= length monthly_returns ->
  j < ncols monthly_returns ->
  PrimFloat.is_zero (nanstd default_ddof (column j monthly_returns)) = true ->
  exists out' s,
    MeanReversion.compute self today assets out monthly_returns = Ok out' /\
    out' !! j = Some s /\ PrimFloat.is_finite s = false.
Proof.
  intros Hrect Hout Hn Hj Hz.
  destruct (compute_cells self today assets out monthly_returns Hrect Hout Hn)
    as (out' & Hrun & _ & Hcell).
  eexists out', _. split; [exact Hrun|]. split; [apply Hcell, Hj|].
  apply div_zero_not_finite, Hz.
Qed.





(** The two readings of "standard deviation" give different scores, and
    the code follows the sample one. *)
Lemma sample_not_population :
  MeanReversion.compute (MeanReversion.make notebook_settings) 0 [7] [0%float]
    [[1%float]; [3%float]]
    = Ok [zscore sample_std [1%float; 3%float]] /\
  (zscore sample_std [1%float; 3%float] =? zscore population_std [1%float; 3%float])%float
    = false.
Proof. split; vm_compute; reflexivity. Qed.

(** * Stable argsort *)

Section Argsort.
Variable key : nat -> float.

Lemma before_irrefl a : ~ before key a a.
Proof. unfold before, lex_lt. intros [H|[_ H]]; lia. Qed.

Lemma before_trans a b c : before key a b -> before key b c -> before key a c.
Proof.
  unfold before, lex_lt. intros [H1|[E1 H1]] [H2|[E2 H2]].
  - left. lia.
  - left. rewrite <- E2. exact H1.
  - left. rewrite E1. exact H2.
  - right. split; [congruence|lia].
Qed.

Lemma before_total a b : a <> b -> before key a b \/ before key b a.
Proof.
  intros Hne. unfold before, lex_lt.
  destruct (fkey (key a)) as [[a1 a2] a3], (fkey (key b)) as [[b1 b2] b3]; simpl.
  destruct (Z.lt_trichotomy a1 b1) as [?|[?|?]]; [left; left; lia| |right; left; lia].
  destruct (Z.lt_trichotomy a2 b2) as [?|[?|?]]; [left; left; lia| |right; left; lia].
  destruct (Z.lt_trichotomy a3 b3) as [?|[?|?]]; [left; left; lia| |right; left; lia].
  subst. destruct (Nat.lt_total a b) as [?|[?|?]]; [left; right; auto|contradiction|right; right; auto].
Qed.

Lemma before_asym a b : before key a b -> ~ before key b a.
Proof. intros H1 H2. exact (before_irrefl a (before_trans _ _ _ H1 H2)). Qed.

Lemma np_lt_before a b : np_lt (key a) (key b) = true -> before key a b.
Proof. intros H. left. apply np_lt_lex, H. Qed.

Lemma not_np_lt_before i j :
  np_lt (key i) (key j) = false -> j < i -> before key j i.
Proof.
  intros H Hlt. apply np_lt_false_lex in H. unfold before, lex_lt in *.
  destruct (fkey (key i)) as [[a1 a2] a3], (fkey (key j)) as [[b1 b2] b3]; simpl in *.
  destruct (Z.lt_trichotomy b1 a1) as [?|[?|?]]; [left; lia| |lia].
  destruct (Z.lt_trichotomy b2 a2) as [?|[?|?]]; [left; lia| |lia].
  destruct (Z.lt_trichotomy b3 a3) as [?|[?|?]]; [left; lia| |lia].
  right. subst. auto.
Qed.

(** ** Insertion keeps the list sorted *)

Lemma insert_sorted_perm i l : Permutation (insert_sorted key i l) (i :: l).
Proof.
  induction l as [|j l IH]; simpl; [reflexivity|].
  destruct (np_lt (key i) (key j)); [reflexivity|].
  rewrite IH. apply perm_swap.
Qed.

Lemma insert_sorted_sorted i l :
  StronglySorted (before key) l -> Forall (fun j => j < i) l ->
  StronglySorted (before key) (insert_sorted key i l).
Proof.
  induction 1 as [|j l Hs IH Hj]; intros Hlt; simpl.
  - repeat constructor.
  - apply Forall_cons_1 in Hlt as [Hji Hlt].
    destruct (np_lt (key i) (key j)) eqn:Hcmp.
    + constructor; [constructor; assumption|].
      pose proof (np_lt_before _ _ Hcmp) as Hb.
      constructor; [exact Hb|].
      eapply List.Forall_impl; [|exact Hj]. intros x Hx. eapply before_trans; eassumption.
    + constructor; [apply IH, Hlt|].
      rewrite (insert_sorted_perm i l).
      constructor; [apply not_np_lt_before; assumption|exact Hj].
Qed.

Lemma sort_upto_S n : sort_upto key (S n) = insert_sorted key n (sort_upto key n).
Proof. unfold sort_upto. rewrite seq_S, fold_left_app. reflexivity. Qed.

Lemma sort_upto_perm n : Permutation (sort_upto key n) (seq 0 n).
Proof.
  induction n as [|n IH]; [reflexivity|].
  rewrite sort_upto_S, insert_sorted_perm, IH, seq_S. simpl.
  apply Permutation_cons_append.
Qed.

Lemma sort_upto_sorted n : StronglySorted (before key) (sort_upto key n).
Proof.
  induction n as [|n IH]; [constructor|].
  rewrite sort_upto_S. apply insert_sorted_sorted; [exact IH|].
  rewrite (sort_upto_perm n). apply Forall_forall. intros x Hx.
  apply elem_of_seq in Hx. lia.
Qed.

Lemma elem_of_sort_upto n i : i ∈ sort_upto key n <-> i < n.
Proof. rewrite (sort_upto_perm n), elem_of_seq. lia. Qed.

End Argsort.

(** ** Positions *)

Lemma position_lookup i l : i ∈ l -> l !! position i l = Some i.
Proof.
  induction l as [|j l IH]; intros Hin; [inversion Hin|]. simpl.
  destruct (Nat.eqb_spec i j) as [->|Hne]; [reflexivity|]. simpl.
  apply IH. apply elem_of_cons in Hin as [?|?]; [contradiction|assumption].
Qed.

Lemma lookup_position p i l : NoDup l -> l !! p = Some i -> position i l = p.
Proof.
  intros Hnd Hp. pose proof (position_lookup i l (list_elem_of_lookup_2 _ _ _ Hp)) as Hq.
  eapply NoDup_lookup; eassumption.
Qed.

Lemma sorted_lookup_lt {A} (R : A -> A -> Prop) l p q a b :
  StronglySorted R l -> l !! p = Some a -> l !! q = Some b -> p < q -> R a b.
Proof.
  intros Hs. revert p q. induction Hs as [|x l Hs IH Hx]; intros p q Hp Hq Hlt.
  - discriminate.
  - destruct q as [|q]; [lia|]. simpl in Hq. destruct p as [|p]; simpl in Hp.
    + injection Hp as ->. rewrite List.Forall_forall in Hx. apply Hx.
      apply list_elem_of_In. eapply list_elem_of_lookup_2, Hq.
    + eapply IH; [exact Hp|exact Hq|lia].
Qed.

Section Positions.
Variable key : nat -> float.
Variable n : nat.

(** In the sorted order, an index that comes before another has the
    smaller position. *)
Lemma position_mono a b :
  a < n -> b < n -> before key a b ->
  position a (sort_upto key n) < position b (sort_upto key n).
Proof.
  intros Ha Hb Hab.
  pose proof (position_lookup a _ (proj2 (elem_of_sort_upto key n a) Ha)) as Pa.
  pose proof (position_lookup b _ (proj2 (elem_of_sort_upto key n b) Hb)) as Pb.
  destruct (Nat.lt_total (position a (sort_upto key n)) (position b (sort_upto key n)))
    as [H|[H|H]]; [exact H| |].
  - rewrite H in Pa. rewrite Pa in Pb. injection Pb as ->.
    destruct (before_irrefl key _ Hab).
  - pose proof (sorted_lookup_lt _ _ _ _ _ _ (sort_upto_sorted key n) Pb Pa H) as Hba.
    destruct (before_asym key _ _ Hab Hba).
Qed.

End Positions.

(** * Ranks *)

Lemma argsort_sort_upto data : argsort data = sort_upto (key_of data) (length data).
Proof. reflexivity. Qed.

Lemma map_nth_seq (data : list float) :
  map (key_of data) (seq 0 (length data)) = data.
Proof.
  unfold key_of. induction data as [|x data IH]; [reflexivity|].
  simpl. f_equal. rewrite <- seq_shift, map_map. exact IH.
Qed.

Lemma zip_map_seq {B} (data : list float) (g : nat -> B) :
  zip data (map g (seq 0 (length data)))
  = map (fun i => (key_of data i, g i)) (seq 0 (length data)).
Proof.
  rewrite <- (map_nth_seq data) at 1. generalize (seq 0 (length data)) as l.
  induction l as [|i l IH]; [reflexivity|]. simpl. f_equal. exact IH.
Qed.

Lemma key_of_opp data k :
  k < length data -> key_of (map PrimFloat.opp data) k = (- key_of data k)%float.
Proof.
  intros Hk. unfold key_of.
  rewrite (nth_indep _ PrimFloat.nan (- PrimFloat.nan)%float) by (rewrite length_map; exact Hk).
  apply map_nth.
Qed.

Lemma length_sort_keys asc data : length (sort_keys asc data) = length data.
Proof. destruct asc; simpl; [reflexivity|apply length_map]. Qed.

Lemma rank_eq asc data :
  rank asc data
  = map (fun i => if isna (key_of data i) then None else Some (S (place asc data i)))
        (seq 0 (length data)).
Proof.
  unfold rank, rankdata_ordinal. fold (sort_keys asc data).
  rewrite length_sort_keys, zip_map_seq, map_map. reflexivity.
Qed.

Lemma length_rank asc data : length (rank asc data) = length data.
Proof. rewrite rank_eq, length_map, length_seq. reflexivity. Qed.

Lemma nth_map_seq {B} (g : nat -> B) n i d :
  i < n -> List.nth i (map g (seq 0 n)) d = g i.
Proof.
  intros Hi. rewrite (nth_indep _ d (g 0)) by (rewrite length_map, length_seq; exact Hi).
  rewrite map_nth, seq_nth by exact Hi. reflexivity.
Qed.

Lemma nth_rank asc data i :
  i < length data ->
  List.nth i (rank asc data) None
  = if isna (key_of data i) then None else Some (S (place asc data i)).
Proof. intros Hi. rewrite rank_eq. apply nth_map_seq, Hi. Qed.

Lemma nth_rank_le asc N data i :
  List.nth i (map (rank_le N) (rank asc data)) false
  = rank_le N (List.nth i (rank asc data) None).
Proof. apply (map_nth (rank_le N) (rank asc data) None). Qed.

(** A flag of [bottom]/[top]: a defined score placed among the first [N]. *)
Lemma flag_spec asc N data i :
  i < length data ->
  List.nth i (map (rank_le N) (rank asc data)) false = true
  <-> valid_at data i /\ place asc data i < N.
Proof.
  intros Hi. rewrite nth_rank_le, nth_rank by exact Hi. unfold valid_at.
  destruct (isna (key_of data i)); cbn [rank_le].
  - split; [discriminate|intros [? _]; discriminate].
  - rewrite Nat.leb_le. split; [intros ?; split; [reflexivity|lia]|intros [_ ?]; lia].
Qed.

Lemma flag_out_of_range asc N data i :
  length data <= i -> List.nth i (map (rank_le N) (rank asc data)) false = false.
Proof. intros Hi. apply nth_overflow. rewrite length_map, length_rank. exact Hi. Qed.

Lemma flag_in_range asc N data i :
  List.nth i (map (rank_le N) (rank asc data)) false = true -> i < length data.
Proof.
  intros H. destruct (Nat.lt_ge_cases i (length data)) as [?|Hge]; [assumption|].
  rewrite (flag_out_of_range asc N data i Hge) in H. discriminate.
Qed.

(** ** The order of places follows the order of scores *)

Lemma place_mono_asc data a b :
  a < length data -> b < length data ->
  (key_of data a <? key_of data b)%float = true ->
  place true data a < place true data b.
Proof.
  intros Ha Hb Hlt. unfold place. simpl. rewrite argsort_sort_upto.
  apply position_mono; [assumption..|]. apply np_lt_before.
  unfold np_lt. rewrite Hlt. reflexivity.
Qed.

Lemma place_mono_desc data a b :
  a < length data -> b < length data ->
  (key_of data b <? key_of data a)%float = true ->
  place false data a < place false data b.
Proof.
  intros Ha Hb Hlt. unfold place. simpl. rewrite argsort_sort_upto, length_map.
  apply position_mono; [assumption..|]. apply np_lt_before.
  rewrite !key_of_opp by assumption. apply np_lt_opp, Hlt.
Qed.

Lemma place_lt_not_greater_asc data a b :
  a < length data -> b < length data ->
  place true data a < place true data b ->
  (key_of data b <? key_of data a)%float = false.
Proof.
  intros Ha Hb Hlt. destruct (key_of data b <? key_of data a)%float eqn:H; [|reflexivity].
  pose proof (place_mono_asc data b a Hb Ha H). lia.
Qed.

Lemma place_lt_not_greater_desc data a b :
  a < length data -> b < length data ->
  place false data a < place false data b ->
  (key_of data a <? key_of data b)%float = false.
Proof.
  intros Ha Hb Hlt. destruct (key_of data a <? key_of data b)%float eqn:H; [|reflexivity].
  pose proof (place_mono_desc data b a Hb Ha H). lia.
Qed.

(** * How many assets a ranking filter flags *)

Lemma length_filter_map {A B} (g : A -> B) (P : B -> Prop) `{!forall x, Decision (P x)}
    (l : list A) :
  length (filter P (map g l)) = length (filter (fun x => P (g x)) l).
Proof.
  induction l as [|x l IH]; [reflexivity|]. simpl.
  rewrite !filter_cons. destruct (decide (P (g x))); simpl; rewrite IH; reflexivity.
Qed.

Lemma NoDup_take {A} (l : list A) k : NoDup l -> NoDup (take k l).
Proof.
  intros H. rewrite <- (take_drop k l) in H. apply NoDup_app in H as [H _]. exact H.
Qed.

Lemma position_app_l i l1 l2 : i ∈ l1 -> position i (l1 ++ l2) = position i l1.
Proof.
  induction l1 as [|j l1 IH]; intros Hin; [inversion Hin|]. simpl.
  destruct (Nat.eqb_spec i j); [reflexivity|]. f_equal. apply IH.
  apply elem_of_cons in Hin as [?|?]; [contradiction|assumption].
Qed.

Lemma sorted_filter_prefix {A} (R : A -> A -> Prop) (P : A -> Prop)
    `{!forall x, Decision (P x)} (l : list A) :
  StronglySorted R l ->
  (forall a b, R a b -> R b a -> False) ->
  (forall a b, P a -> ~ P b -> R a b) ->
  exists rest, l = filter P l ++ rest.
Proof.
  intros Hs Hasym HP. induction Hs as [|x l Hs IH Hx]; [exists []; reflexivity|].
  destruct IH as [rest IH]. destruct (decide (P x)) as [Hpx|Hnx].
  - exists rest. rewrite filter_cons_True by exact Hpx. simpl. f_equal. exact IH.
  - exists (x :: l). rewrite filter_cons_False by exact Hnx.
    replace (filter P l) with (@nil A); [reflexivity|].
    symmetry. destruct (filter P l) as [|y k] eqn:Hf; [reflexivity|].
    assert (Hy : y ∈ filter P l) by (rewrite Hf; left).
    apply list_elem_of_filter in Hy as [Hpy Hyl].
    rewrite List.Forall_forall in Hx.
    destruct (Hasym x y); [apply Hx, list_elem_of_In, Hyl|apply HP; assumption].
Qed.

Lemma valid_at_sort_keys asc data i :
  valid_at (sort_keys asc data) i <-> valid_at data i.
Proof.
  destruct asc; simpl; [reflexivity|]. unfold valid_at.
  destruct (Nat.lt_ge_cases i (length data)) as [Hi|Hi].
  - rewrite key_of_opp by exact Hi. rewrite isna_opp. reflexivity.
  - unfold key_of. rewrite !nth_overflow by (rewrite ?length_map; exact Hi). reflexivity.
Qed.

Lemma valid_at_lt data i : valid_at data i -> i < length data.
Proof.
  unfold valid_at, key_of. intros H.
  destruct (Nat.lt_ge_cases i (length data)) as [?|Hge]; [assumption|].
  rewrite nth_overflow in H by exact Hge. discriminate.
Qed.

Lemma count_notna_valid data :
  count_notna data = length (filter (valid_at data) (seq 0 (length data))).
Proof.
  unfold count_notna. rewrite <- (map_nth_seq data) at 1.
  rewrite (length_filter_map (key_of data) (fun x => isna x = false)). reflexivity.
Qed.

Section Flags.
Variables (asc : bool) (data : list float).

Lemma sorted_order_perm : sorted_order asc data ≡ₚ seq 0 (length data).
Proof.
  unfold sorted_order. rewrite argsort_sort_upto, length_sort_keys.
  apply sort_upto_perm.
Qed.

Lemma sorted_order_NoDup : NoDup (sorted_order asc data).
Proof. rewrite sorted_order_perm. apply NoDup_seq. Qed.

Lemma valid_order_NoDup : NoDup (valid_order asc data).
Proof. apply NoDup_filter, sorted_order_NoDup. Qed.

Lemma elem_of_valid_order i : i ∈ valid_order asc data <-> valid_at data i.
Proof.
  unfold valid_order. rewrite list_elem_of_filter, sorted_order_perm, elem_of_seq.
  split; [tauto|]. intros H. split; [exact H|]. apply valid_at_lt in H. lia.
Qed.

Lemma length_valid_order : length (valid_order asc data) = count_notna data.
Proof. unfold valid_order. rewrite count_notna_valid, sorted_order_perm. reflexivity. Qed.

(** Defined scores sort before missing ones. *)
Lemma valid_order_prefix : exists rest, sorted_order asc data = valid_order asc data ++ rest.
Proof.
  unfold valid_order, sorted_order. rewrite argsort_sort_upto.
  apply (sorted_filter_prefix (before (key_of (sort_keys asc data)))).
  - apply sort_upto_sorted.
  - intros a b H1 H2. exact (before_asym _ _ _ H1 H2).
  - intros a b Ha Hb. apply np_lt_before.
    apply (valid_at_sort_keys asc) in Ha.
    assert (Hb' : ~ valid_at (sort_keys asc data) b)
      by (rewrite valid_at_sort_keys; exact Hb).
    unfold valid_at in Ha, Hb'. apply not_false_is_true in Hb'.
    unfold np_lt. rewrite Ha, Hb'. apply orb_true_r.
Qed.

Lemma place_valid_order i :
  valid_at data i -> place asc data i = position i (valid_order asc data).
Proof.
  intros Hv. unfold place. fold (sorted_order asc data).
  destruct valid_order_prefix as [rest Hrest].
  rewrite Hrest. apply position_app_l, elem_of_valid_order, Hv.
Qed.

(** The flagged assets are the first [N] of the valid ones, in sorted
    order. *)
Lemma flag_take N i :
  List.nth i (map (rank_le N) (rank asc data)) false = true
  <-> i ∈ take N (valid_order asc data).
Proof.
  split.
  - intros H. pose proof (flag_in_range _ _ _ _ H) as Hi.
    apply flag_spec in H as [Hv Hp]; [|exact Hi].
    rewrite place_valid_order in Hp by exact Hv.
    apply elem_of_take. exists (position i (valid_order asc data)). split; [|exact Hp].
    apply position_lookup, elem_of_valid_order, Hv.
  - intros H. apply elem_of_take in H as (p & Hp & HpN).
    assert (Hv : valid_at data i)
      by (apply elem_of_valid_order; eapply list_elem_of_lookup_2, Hp).
    apply flag_spec; [apply valid_at_lt, Hv|]. split; [exact Hv|].
    rewrite place_valid_order by exact Hv.
    rewrite (lookup_position p i _ valid_order_NoDup Hp). exact HpN.
Qed.

Lemma flags_eq N :
  map (rank_le N) (rank asc data)
  = map (fun i => List.nth i (map (rank_le N) (rank asc data)) false)
        (seq 0 (length data)).
Proof.
  apply nth_ext with (d := false) (d' := false).
  - rewrite !length_map, length_rank, length_seq. reflexivity.
  - intros i Hi. rewrite length_map, length_rank in Hi.
    rewrite (nth_map_seq (fun i => List.nth i (map (rank_le N) (rank asc data)) false))
      by exact Hi. reflexivity.
Qed.

Lemma count_flags N :
  length (filter (fun b => b = true) (map (rank_le N) (rank asc data)))
  = min N (count_notna data).
Proof.
  rewrite flags_eq.
  rewrite (length_filter_map
             (fun i => List.nth i (map (rank_le N) (rank asc data)) false)
             (fun b => b = true)).
  rewrite <- length_valid_order, <- length_take. apply Permutation_length.
  apply NoDup_Permutation.
  - apply NoDup_filter, NoDup_seq.
  - apply NoDup_take, valid_order_NoDup.
  - intros i. rewrite list_elem_of_filter, flag_take, elem_of_seq.
    split; [tauto|]. intros H. split; [exact H|].
    apply flag_take, flag_in_range in H. lia.
Qed.
End Flags.

(** * Top and bottom do not meet when the scores are distinct *)

Lemma length_filter_except (P : nat -> Prop) `{!forall x, Decision (P x)} (l : list nat) i :
  NoDup l -> i ∈ l -> P i ->
  length (filter P l) = S (length (filter (fun j => P j /\ j <> i) l)).
Proof.
  intros Hnd Hin Hp.
  change (S (length (filter (fun j => P j /\ j <> i) l)))
    with (length (i :: filter (fun j => P j /\ j <> i) l)).
  apply Permutation_length, NoDup_Permutation.
  - apply NoDup_filter, Hnd.
  - constructor; [|apply NoDup_filter, Hnd].
    rewrite list_elem_of_In, <- list_elem_of_In, list_elem_of_filter. tauto.
  - intros x. rewrite elem_of_cons, !list_elem_of_filter.
    destruct (Nat.eq_dec x i) as [->|Hne]; tauto.
Qed.

Lemma elem_of_take_position i l k : i ∈ l -> position i l < k -> i ∈ take k l.
Proof.
  intros Hin Hlt. apply elem_of_take. exists (position i l).
  split; [apply position_lookup, Hin|exact Hlt].
Qed.

Lemma elem_of_argsort data i : i ∈ argsort data <-> i < length data.
Proof. rewrite argsort_sort_upto. apply elem_of_sort_upto. Qed.

Lemma top_bottom_disjoint data K_low K_high i :
  distinct_scores data ->
  K_low + K_high <= count_notna data ->
  List.nth i (bottom K_low data) false = true ->
  List.nth i (top K_high data) false = true ->
  False.
Proof.
  intros Hdist Hk Hlow Hhigh. unfold bottom in Hlow. unfold top in Hhigh.
  pose proof (flag_in_range _ _ _ _ Hlow) as Hi.
  apply flag_spec in Hlow as [Hv Hpl]; [|exact Hi].
  apply flag_spec in Hhigh as [_ Hph]; [|exact Hi].
  set (n := length data) in *.
  set (V := filter (fun j => valid_at data j /\ j <> i) (seq 0 n)).
  set (A := take (place true data i) (argsort (sort_keys true data))).
  set (D := take (place false data i) (argsort (sort_keys false data))).
  assert (HV : S (length V) = count_notna data).
  { rewrite count_notna_valid. symmetry. apply length_filter_except.
    - apply NoDup_seq.
    - apply elem_of_seq. unfold n in *. lia.
    - exact Hv. }
  assert (Hsub : length V <= length (A ++ D)).
  { apply submseteq_length, NoDup_submseteq; [apply NoDup_filter, NoDup_seq|].
    intros j Hj. apply list_elem_of_filter in Hj as [[Hvj Hne] Hjn].
    apply elem_of_seq in Hjn. assert (Hj : j < n) by lia.
    pose proof (Hdist j i Hne Hvj Hv) as Heq.
    destruct (float_trichotomy (key_of data j) (key_of data i) Hvj Hv) as [H|[H|H]].
    - apply elem_of_app. left. apply elem_of_take_position.
      + apply elem_of_argsort. rewrite length_sort_keys. exact Hj.
      + apply place_mono_asc; assumption.
    - congruence.
    - apply elem_of_app. right. apply elem_of_take_position.
      + apply elem_of_argsort. rewrite length_sort_keys. exact Hj.
      + apply place_mono_desc; assumption. }
  rewrite length_app in Hsub. unfold A, D in Hsub. rewrite !length_take in Hsub. lia.
Qed.

(** * Running callbacks *)

Lemma run_bind {W A B} (h : Handler W) (p : Prog A) (f : A -> Prog B) w :
  run h (prog_bind p f) w =
  match run h p w with
  | (tr1, Ok (a, w1)) => let '(tr2, r2) := run h (f a) w1 in (tr1 ++ tr2, r2)
  | (tr1, Raise e) => (tr1, Raise e)
  end.
Proof.
  revert w. induction p as [a|X c k IH]; intros w; simpl.
  - destruct (run h (f a) w). reflexivity.
  - destruct (h X c w) as [[x w']|e]; [|reflexivity].
    rewrite IH. destruct (run h (k x) w') as [tr1 [[a w1]|e]]; [|reflexivity].
    destruct (run h (f a) w1). reflexivity.
Qed.

(** ** Exceptions *)



(** ** The guard of [exec_trades] *)

Lemma guarded_nil : guarded [].
Proof. intros i ev a t H. discriminate. Qed.

Lemma guarded_cons ev tr :
  (forall a t, ~ is_order ev a t) -> guarded tr -> guarded (ev :: tr).
Proof.
  intros Hev Htr [|i] ev' a t Hl Ho; simpl in Hl.
  - injection Hl as <-. destruct (Hev a t Ho).
  - destruct (Htr i ev' a t Hl Ho) as (j & e1 & e2 & -> & H1 & H2 & H3 & H4).
    exists (S j), e1, e2. auto.
Qed.

Lemma guarded_order e1 e2 e3 a tr :
  answered_tradeable e1 a -> answered_no_open_order e2 a ->
  (forall a' t, is_order e3 a' t -> a' = a) ->
  (forall a' t, ~ is_order e1 a' t) -> (forall a' t, ~ is_order e2 a' t) ->
  guarded tr -> guarded (e1 :: e2 :: e3 :: tr).
Proof.
  intros H1 H2 H3 N1 N2 Htr [|[|[|i]]] ev' a' t Hl Ho; simpl in Hl.
  - injection Hl as <-. destruct (N1 a' t Ho).
  - injection Hl as <-. destruct (N2 a' t Ho).
  - injection Hl as <-. rewrite (H3 a' t Ho). exists 0, e1, e2. auto.
  - destruct (Htr i ev' a' t Hl Ho) as (j & f1 & f2 & -> & G1 & G2 & G3 & G4).
    exists (S (S (S j))), f1, f2. auto.
Qed.

Lemma guarded_app tr1 tr2 : guarded tr1 -> guarded tr2 -> guarded (tr1 ++ tr2).
Proof.
  intros H1 H2 i ev a t Hl Ho.
  destruct (lookup_app_Some tr1 tr2 i ev) as [Hcase _].
  destruct (Hcase Hl) as [Hl1|[Hge Hl2]].
  - destruct (H1 i ev a t Hl1 Ho) as (j & e1 & e2 & -> & G1 & G2 & G3 & G4).
    exists j, e1, e2. repeat split; auto using lookup_app_l_Some.
  - destruct (H2 _ ev a t Hl2 Ho) as (j & e1 & e2 & Hi & G1 & G2 & G3 & G4).
    exists (length tr1 + j), e1, e2. split; [lia|].
    rewrite lookup_app_r by lia. replace (length tr1 + j - length tr1) with j by lia.
    rewrite lookup_app_r by lia. replace (S (length tr1 + j) - length tr1) with (S j) by lia.
    auto.
Qed.

Lemma exec_trades_guarded {W} (h : Handler W) data assets target_percent w :
  guarded (run h (exec_trades data assets target_percent) w).1.
Proof.
  revert w. induction assets as [|a rest IH]; intros w; [apply guarded_nil|].
  cbn [exec_trades]. rewrite run_bind. cbn [run prog_bind call].
  destruct (h bool (data_can_trade a) w) as [[[|] w1]|e]; cbn [run prog_bind call].
  - destruct (h _ (get_open_orders a) w1) as [[[|o os] w2]|e]; cbn [run prog_bind call].
    + destruct (h _ (order_target_percent a target_percent) w2) as [[x w3]|e];
        cbn [run prog_bind call].
      * specialize (IH w3). destruct (run h (exec_trades data rest target_percent) w3).
        simpl in *. apply guarded_order with (a := a); simpl; auto; try tauto; intros ? ? [? ?]; congruence.
      * simpl. apply guarded_order with (a := a); simpl; auto; try tauto;
          try (intros ? ? [? ?]; congruence).
        apply guarded_nil.
    + specialize (IH w2). destruct (run h (exec_trades data rest target_percent) w2).
      simpl in *. apply guarded_cons; [simpl; tauto|].
      apply guarded_cons; [simpl; tauto|]. exact IH.
    + simpl. apply guarded_cons; [simpl; tauto|].
      apply guarded_cons; [simpl; tauto|]. apply guarded_nil.
  - specialize (IH w1). destruct (run h (exec_trades data rest target_percent) w1).
    simpl in *. apply guarded_cons; [simpl; tauto|]. exact IH.
  - simpl. apply guarded_cons; [simpl; tauto|]. apply guarded_nil.
Qed.

Lemma run_seq {W A B} (h : Handler W) (p : Prog A) (q : Prog B) w :
  match run h p w with
  | (tr1, Ok (_, w1)) =>
      run h (p ;;; q) w = (tr1 ++ (run h q w1).1, (run h q w1).2)
  | (tr1, Raise e) => run h (p ;;; q) w = (tr1, Raise e)
  end.
Proof.
  rewrite run_bind. destruct (run h p w) as [tr1 [[a w1]|e]]; [|reflexivity].
  destruct (run h q w1). reflexivity.
Qed.

(** A property of traces that holds of each part holds of a sequence. *)
Lemma run_seq_ind {W A B} (P : list Event -> Prop) (h : Handler W)
    (p : Prog A) (q : Prog B) w :
  (forall tr1 tr2, P tr1 -> P tr2 -> P (tr1 ++ tr2)) ->
  P (run h p w).1 -> (forall w1, P (run h q w1).1) -> P (run h (p ;;; q) w).1.
Proof.
  intros Happ Hp Hq. pose proof (run_seq h p q w) as H.
  destruct (run h p w) as [tr1 [[a w1]|e]]; rewrite H; simpl in *.
  - apply Happ; [exact Hp|apply Hq].
  - exact Hp.
Qed.

Lemma trades_guarded {W} (h : Handler W) cfg data fd held w :
  guarded (run h (trades cfg data fd held) w).1.
Proof.
  unfold trades.
  apply run_seq_ind; [apply guarded_app|apply exec_trades_guarded|]. intros w1.
  apply run_seq_ind; [apply guarded_app|apply exec_trades_guarded|]. intros w2.
  apply exec_trades_guarded.
Qed.

Lemma run_rebalance {W} (h : Handler W) cfg context data w :
  rebalance_run h cfg data w (run h (rebalance cfg context data) w).
Proof.
  unfold rebalance. cbn [run prog_bind call].
  destruct (h _ get_factor_data w) as [[fd w1]|e]; [|constructor].
  cbn [run prog_bind call].
  destruct (h _ portfolio_positions_keys w1) as [[held w2]|e]; [|constructor].
  cbn [run prog_bind call].
  destruct (h _ get_datetime w2) as [[now w3]|e].
  2:{ apply rr_failed_before_trades; [simpl; lia|]. repeat constructor. simpl. tauto. }
  cbn [run prog_bind call].
  destruct (h _ portfolio_value w3) as [[value w4]|e].
  2:{ apply rr_failed_before_trades; [simpl; lia|]. repeat constructor; simpl; tauto. }
  cbn [run prog_bind call].
  destruct (h _ (log_info _) w4) as [[[] w5]|e].
  2:{ apply rr_failed_before_trades; [simpl; lia|]. repeat constructor; simpl; tauto. }
  cbn [run prog_bind call].
  fold (divest_set fd held).
  change (prog_bind (exec_trades data (elements (divest_set fd held)) 0%float) _)
    with (trades cfg data fd held).
  destruct (run h (trades cfg data fd held) w5) as [tr r] eqn:Hrun.
  replace tr with (run h (trades cfg data fd held) w5).1 by (rewrite Hrun; reflexivity).
  replace r with (run h (trades cfg data fd held) w5).2 by (rewrite Hrun; reflexivity).
  apply rr_trades.
Qed.

Lemma guarded_no_orders tr :
  Forall (fun ev => forall a t, ~ is_order ev a t) tr -> guarded tr.
Proof.
  induction 1 as [|ev tr Hev _ IH]; [apply guarded_nil|].
  apply guarded_cons; assumption.
Qed.

Lemma rebalance_guarded {W} (h : Handler W) cfg context data w :
  guarded (run h (rebalance cfg context data) w).1.
Proof.
  destruct (run_rebalance h cfg context data w); simpl.
  - apply guarded_cons; [simpl; tauto|apply guarded_nil].
  - do 2 (apply guarded_cons; [simpl; tauto|]). apply guarded_nil.
  - do 2 (apply guarded_cons; [simpl; tauto|]). apply guarded_no_orders. assumption.
  - do 5 (apply guarded_cons; [simpl; tauto|]). apply trades_guarded.
Qed.

(** C6: whatever the engine answers, an order is requested for an asset
    only right after the engine answered that the asset can be traded and
    that it has no open order; this holds of [exec_trades] on any
    collection of assets and of a whole rebalancing tick. *)
Theorem orders_only_when_tradeable_and_not_pending {W} (h : Handler W) (w : W)
    cfg context data assets target_percent :
  guarded (run h (exec_trades data assets target_percent) w).1 /\
  guarded (run h (rebalance cfg context data) w).1.
Proof. split; [apply exec_trades_guarded|apply rebalance_guarded]. Qed.

(** ** Which target goes to which asset *)










(** * The pipeline output *)

Lemma pipeline_row_Some p d i r :
  pipeline_row p d i = Some r <->
  List.nth i (screen p d) false = true /\
  exists a, universe d !! i = Some a /\
    r = {| row_asset := a;
           longs := List.nth i (col_longs p d) false;
           shorts := List.nth i (col_shorts p d) false;
           ranking := List.nth i (col_ranking p d) None |}.
Proof.
  unfold pipeline_row. destruct (List.nth i (screen p d) false).
  - destruct (universe d !! i) as [a|].
    + split.
      * intros [= <-]. split; [reflexivity|]. exists a. split; reflexivity.
      * intros [_ (a' & [= <-] & ->)]. reflexivity.
    + split; [discriminate|]. intros [_ (a' & [=] & _)].
  - split; [discriminate|]. intros [[=] _].
Qed.

Lemma elem_of_run_pipeline p d r :
  r ∈ run_pipeline p d <-> exists i, pipeline_row p d i = Some r.
Proof.
  unfold run_pipeline. rewrite list_elem_of_omap. split.
  - intros (i & _ & H). exists i. exact H.
  - intros (i & H). exists i. split; [|exact H].
    apply pipeline_row_Some in H as (_ & a & Ha & _).
    apply lookup_lt_Some in Ha. apply elem_of_seq. lia.
Qed.

Lemma elem_of_index_where col fd a :
  a ∈ index_where col fd <-> exists r, r ∈ fd /\ col r = true /\ row_asset r = a.
Proof.
  unfold index_where. rewrite list_elem_of_In, in_map_iff. split.
  - intros (r & Ha & Hr). apply filter_In in Hr as [Hr Hc].
    exists r. rewrite list_elem_of_In. auto.
  - intros (r & Hr & Hc & Ha). exists r. split; [exact Ha|].
    apply filter_In. rewrite <- list_elem_of_In. auto.
Qed.

(** The long and short sets that [rebalance] reads off the table. *)
Lemma elem_of_long_set cfg d a :
  a ∈ long_set (run_pipeline (compute_factors cfg) d) <->
  exists i, universe d !! i = Some a /\
    List.nth i (top (VOL_SCREEN cfg) (dollar_volume d)) false = true /\
    List.nth i (bottom (N_LONGS cfg) (mean_reversion d)) false = true.
Proof.
  unfold long_set. rewrite elem_of_index_where. split.
  - intros (r & Hr & Hl & Ha). apply elem_of_run_pipeline in Hr as [i Hi].
    apply pipeline_row_Some in Hi as (Hs & a' & Hu & ->). simpl in *. subst a'.
    exists i. auto.
  - intros (i & Hu & Hs & Hl). eexists. split; [|split].
    + apply elem_of_run_pipeline. exists i. apply pipeline_row_Some.
      split; [exact Hs|]. exists a. split; [exact Hu|reflexivity].
    + exact Hl.
    + reflexivity.
Qed.

Lemma elem_of_short_set cfg d a :
  a ∈ short_set (run_pipeline (compute_factors cfg) d) <->
  exists i, universe d !! i = Some a /\
    List.nth i (top (VOL_SCREEN cfg) (dollar_volume d)) false = true /\
    List.nth i (top (N_SHORTS cfg) (mean_reversion d)) false = true.
Proof.
  unfold short_set. rewrite elem_of_index_where. split.
  - intros (r & Hr & Hl & Ha). apply elem_of_run_pipeline in Hr as [i Hi].
    apply pipeline_row_Some in Hi as (Hs & a' & Hu & ->). simpl in *. subst a'.
    exists i. auto.
  - intros (i & Hu & Hs & Hl). eexists. split; [|split].
    + apply elem_of_run_pipeline. exists i. apply pipeline_row_Some.
      split; [exact Hs|]. exists a. split; [exact Hu|reflexivity].
    + exact Hl.
    + reflexivity.
Qed.

Lemma long_short_disjoint cfg d a :
  NoDup (universe d) ->
  distinct_scores (mean_reversion d) ->
  N_LONGS cfg + N_SHORTS cfg <= count_notna (mean_reversion d) ->
  a ∈ long_set (run_pipeline (compute_factors cfg) d) ->
  a ∈ short_set (run_pipeline (compute_factors cfg) d) ->
  False.
Proof.
  intros Hnd Hdist Hk Hl Hs.
  apply elem_of_long_set in Hl as (i & Hi & _ & Hlow).
  apply elem_of_short_set in Hs as (j & Hj & _ & Hhigh).
  assert (i = j) by (eapply NoDup_lookup; eassumption). subst j.
  eapply top_bottom_disjoint; eassumption.
Qed.





(** * Ranking *)

Lemma ltb_notna a b : (a <? b)%float = true -> isna a = false /\ isna b = false.
Proof.
  intros H. apply ltb_lex in H as (_ & Ha & Hb).
  split; apply isna_false_key; assumption.
Qed.

Lemma key_of_lookup data i x : data !! i = Some x -> key_of data i = x.
Proof. apply nth_lookup_Some'. Qed.

Lemma ranking_row cfg d i r s :
  pipeline_row (compute_factors cfg) d i = Some r ->
  mean_reversion d !! i = Some s -> isna s = false ->
  ranking r = Some (S (place false (mean_reversion d) i)).
Proof.
  intros Hr Hs Hna. apply pipeline_row_Some in Hr as (_ & a & _ & ->). simpl.
  rewrite nth_rank by (eapply lookup_lt_Some, Hs).
  rewrite (key_of_lookup _ _ _ Hs), Hna. reflexivity.
Qed.

(** C10: the 'ranking' column is a descending rank: of two assets in the
    pipeline output, the one with the higher score has the smaller rank. *)
Theorem ranking_is_descending cfg d i j ri rj si sj :
  pipeline_row (compute_factors cfg) d i = Some ri ->
  pipeline_row (compute_factors cfg) d j = Some rj ->
  mean_reversion d !! i = Some si ->
  mean_reversion d !! j = Some sj ->
  (sj <? si)%float = true ->
  exists ki kj, ranking ri = Some ki /\ ranking rj = Some kj /\ ki < kj.
Proof.
  intros Hri Hrj Hsi Hsj Hlt. destruct (ltb_notna _ _ Hlt) as [Hnj Hni].
  exists (S (place false (mean_reversion d) i)), (S (place false (mean_reversion d) j)).
  split; [eapply ranking_row; eassumption|]. split; [eapply ranking_row; eassumption|].
  apply ->Nat.succ_lt_mono.
  apply place_mono_desc; try (eapply lookup_lt_Some; eassumption).
  rewrite (key_of_lookup _ _ _ Hsi), (key_of_lookup _ _ _ Hsj). exact Hlt.
Qed.

Lemma ranking_is_descending_witness :
  exists ki kj,
    ranking {| row_asset := 3; longs := true; shorts := true; ranking := Some 1 |} = Some ki /\
    ranking {| row_asset := 2; longs := true; shorts := true; ranking := Some 2 |} = Some kj /\
    ki < kj.
Proof.
  apply (ranking_is_descending notebook_settings day3 2 1 _ _ 3%float 2%float);
    reflexivity.
Defined.

(** Rank 1 is the best short candidate: it is flagged short as soon as one
    short is wanted, and no asset scores higher. *)
Lemma rank_one_is_top_short cfg d i r s :
  pipeline_row (compute_factors cfg) d i = Some r ->
  mean_reversion d !! i = Some s ->
  ranking r = Some 1 ->
  (1 <= N_SHORTS cfg -> shorts r = true) /\
  (forall j s', mean_reversion d !! j = Some s' -> (s <? s')%float = false).
Proof.
  intros Hr Hs Hrank. pose proof Hr as Hrow.
  apply pipeline_row_Some in Hr as (_ & a & _ & ->). simpl in *. split.
  - intros Hk. unfold top. rewrite nth_rank_le, Hrank. cbn [rank_le].
    apply Nat.leb_le. exact Hk.
  - intros j s' Hs'. destruct (s <? s')%float eqn:Hlt; [|reflexivity].
    destruct (ltb_notna _ _ Hlt) as [Hna Hna'].
    rewrite nth_rank in Hrank by (eapply lookup_lt_Some, Hs).
    rewrite (key_of_lookup _ _ _ Hs), Hna in Hrank. injection Hrank as Hp.
    assert (place false (mean_reversion d) j < place false (mean_reversion d) i).
    { apply place_mono_desc; try (eapply lookup_lt_Some; eassumption).
      rewrite (key_of_lookup _ _ _ Hs), (key_of_lookup _ _ _ Hs'). exact Hlt. }
    lia.
Qed.

(** * Selection *)

(** C4 (amended): ranks are taken over all assets with a defined score,
    before the volume screen.  The long flags mark min(K, m) of the m
    defined scores, none of them above an unflagged one; the short flags
    likewise from the top; the sets that reach [rebalance] are the flagged
    assets that pass the screen; they do not overlap when the defined
    scores are pairwise different and there are at least
    N_LONGS + N_SHORTS of them. *)
Theorem selection_by_rank cfg d :
  well_formed d ->
  let scores := mean_reversion d in
  let low i := List.nth i (col_longs (compute_factors cfg) d) false = true in
  let high i := List.nth i (col_shorts (compute_factors cfg) d) false = true in
  let passes i := List.nth i (screen (compute_factors cfg) d) false = true in
  let fd := run_pipeline (compute_factors cfg) d in
  length (filter (fun b => b = true) (col_longs (compute_factors cfg) d))
    = min (N_LONGS cfg) (count_notna scores) /\
  length (filter (fun b => b = true) (col_shorts (compute_factors cfg) d))
    = min (N_SHORTS cfg) (count_notna scores) /\
  (forall i j, low i -> valid_at scores j -> ~ low j ->
     (key_of scores j <? key_of scores i)%float = false) /\
  (forall i j, high i -> valid_at scores j -> ~ high j ->
     (key_of scores i <? key_of scores j)%float = false) /\
  (forall i, low i \/ high i -> valid_at scores i) /\
  (forall a, a ∈ long_set fd <-> exists i, universe d !! i = Some a /\ passes i /\ low i) /\
  (forall a, a ∈ short_set fd <-> exists i, universe d !! i = Some a /\ passes i /\ high i) /\
  (distinct_scores scores ->
   N_LONGS cfg + N_SHORTS cfg <= count_notna scores ->
   forall a, a ∈ long_set fd -> a ∉ short_set fd).
Proof.
  intros (Hlen1 & Hlen2 & Hnd). cbv zeta. simpl.
  split; [apply count_flags|]. split; [apply count_flags|].
  split; [|split; [|split; [|split; [|split]]]].
  - intros i j Hi Hj Hnj. pose proof (flag_in_range _ _ _ _ Hi) as Hin.
    pose proof (valid_at_lt _ _ Hj) as Hjn. unfold bottom in *.
    apply flag_spec in Hi as [_ Hpi]; [|exact Hin].
    rewrite flag_spec in Hnj by exact Hjn.
    apply place_lt_not_greater_asc; try assumption.
    destruct (Nat.lt_ge_cases (place true (mean_reversion d) j) (N_LONGS cfg)); [tauto|lia].
  - intros i j Hi Hj Hnj. pose proof (flag_in_range _ _ _ _ Hi) as Hin.
    pose proof (valid_at_lt _ _ Hj) as Hjn. unfold top in *.
    apply flag_spec in Hi as [_ Hpi]; [|exact Hin].
    rewrite flag_spec in Hnj by exact Hjn.
    apply place_lt_not_greater_desc; try assumption.
    destruct (Nat.lt_ge_cases (place false (mean_reversion d) j) (N_SHORTS cfg)); [tauto|lia].
  - intros i [Hi|Hi]; pose proof (flag_in_range _ _ _ _ Hi) as Hin;
      apply flag_spec in Hi as [Hv _]; assumption.
  - intros a. apply elem_of_long_set.
  - intros a. apply elem_of_short_set.
  - intros Hdist Hk a Hl Hs. eapply long_short_disjoint; eassumption.
Qed.

Lemma well_formed_day5 : well_formed day5.
Proof.
  split; [reflexivity|]. split; [reflexivity|].
  simpl. repeat (apply NoDup_cons_2; [rewrite ?elem_of_cons, elem_of_nil; intuition lia|]).
  apply NoDup_nil_2.
Defined.

Lemma distinct_scores_day5 : distinct_scores (mean_reversion day5).
Proof.
  intros a b Hne Ha Hb. apply valid_at_lt in Ha, Hb. simpl in Ha, Hb.
  destruct a as [|[|[|[|[|a]]]]]; try lia; destruct b as [|[|[|[|[|b]]]]]; try lia;
    try contradiction; reflexivity.
Defined.

Lemma selection_by_rank_witness :
  well_formed day5 /\
  1 ∉ short_set (run_pipeline (compute_factors small_settings) day5).
Proof.
  split; [exact well_formed_day5|].
  destruct (selection_by_rank small_settings day5 well_formed_day5)
    as (_ & _ & _ & _ & _ & _ & _ & Hdisj).
  apply Hdisj; [exact distinct_scores_day5|vm_compute; lia|].
  vm_compute. left.
Defined.

(** C4 fails as stated.  With two longs and two shorts wanted and a screen
    of four assets out of five, asset 1 has the lowest score but the lowest
    dollar volume: the output holds assets 2 to 5 (2 + 2 <= 4) and a
    single long, asset 2, although assets 2 and 3 are the two lowest-scoring
    assets of the screened universe.  With four tied scores and two longs
    and two shorts wanted (2 + 2 <= 4), both filters flag assets 1 and 2.
    With four assets of which two have no score, both filters flag the two
    that have one. *)
Lemma selection_counterexample :
  (index (run_pipeline (compute_factors screened_settings) day5) = [2; 3; 4; 5] /\
   N_LONGS screened_settings = 2 /\
   long_set (run_pipeline (compute_factors screened_settings) day5) = [2] /\
   short_set (run_pipeline (compute_factors screened_settings) day5) = [4; 5]) /\
  (N_LONGS small_settings + N_SHORTS small_settings <= length (universe day_ties) /\
   index (run_pipeline (compute_factors small_settings) day_ties) = [1; 2; 3; 4] /\
   long_set (run_pipeline (compute_factors small_settings) day_ties) = [1; 2] /\
   short_set (run_pipeline (compute_factors small_settings) day_ties) = [1; 2]) /\
  (N_LONGS small_settings + N_SHORTS small_settings <= length (universe day_missing) /\
   index (run_pipeline (compute_factors small_settings) day_missing) = [1; 2; 3; 4] /\
   long_set (run_pipeline (compute_factors small_settings) day_missing) = [1; 3] /\
   short_set (run_pipeline (compute_factors small_settings) day_missing) = [1; 3]).
Proof. vm_compute. repeat split; lia. Qed.

(** * The sets of a rebalancing *)

Lemma elem_of_divest_set fd held a :
  a ∈ divest_set fd held <-> a ∈ held /\ (a ∉ long_set fd) /\ (a ∉ short_set fd).
Proof.
  unfold divest_set, index_union.
  rewrite elem_of_difference, elem_of_list_to_set, elem_of_app. tauto.
Qed.

(** C2 (amended): a rebalancing trades the three sets read off the factor
    table: the divest set is the holdings minus the long and the short
    set, hence disjoint from both; the long and the short set are disjoint
    when the day has at least N_LONGS + N_SHORTS defined scores, all
    different. *)
Theorem rebalance_action_sets {W} (h : Handler W) (w : W) cfg context data :
  rebalance_run h cfg data w (run h (rebalance cfg context data) w) /\
  (forall fd held a,
     a ∈ divest_set fd held <-> a ∈ held /\ (a ∉ long_set fd) /\ (a ∉ short_set fd)) /\
  (forall d,
     NoDup (universe d) ->
     distinct_scores (mean_reversion d) ->
     N_LONGS cfg + N_SHORTS cfg <= count_notna (mean_reversion d) ->
     forall a, a ∈ long_set (run_pipeline (compute_factors cfg) d) ->
               a ∉ short_set (run_pipeline (compute_factors cfg) d)).
Proof.
  split; [apply run_rebalance|]. split; [apply elem_of_divest_set|].
  intros d Hnd Hdist Hk a Hl Hs. eapply long_short_disjoint; eassumption.
Qed.

Lemma rebalance_action_sets_witness :
  1 ∉ short_set (run_pipeline (compute_factors small_settings) day5).
Proof.
  destruct (rebalance_action_sets sim
              (world_of (run_pipeline (compute_factors small_settings) day5) [1; 2; 3; 4; 5; 9])
              small_settings Context BarData) as (_ & _ & Hdisj).
  apply Hdisj.
  - destruct well_formed_day5 as (_ & _ & H). exact H.
  - exact distinct_scores_day5.
  - vm_compute. lia.
  - vm_compute. left.
Defined.

(** C2 fails as stated: with the notebook's 50 longs and 50 shorts and a
    day of three assets, every asset is flagged long and short; each gets
    its long order, and the open order then keeps the short one back. *)
Lemma rebalance_sets_overlap :
  let fd := run_pipeline (compute_factors notebook_settings) day3 in
  long_set fd = [1; 2; 3] /\ short_set fd = [1; 2; 3] /\
  exists tr w',
    run sim (rebalance notebook_settings Context BarData) (world_of fd [1; 2; 3; 9])
      = (tr, Ok (tt, w')) /\
    submitted w' = [(9, 0%float); (1, 0.02%float); (2, 0.02%float); (3, 0.02%float)].
Proof.
  cbv zeta. split; [vm_compute; reflexivity|]. split; [vm_compute; reflexivity|].
  eexists _, _. split; [vm_compute; reflexivity|]. reflexivity.
Qed.

(** * The targets of a rebalancing *)





(** * Two runs *)

(** The factor computed on a window and ranked: the third asset never
    moves, its score is NaN, it has no rank and is flagged on no side. *)
Example factor_pipeline_day :
  factor_pipeline small_settings 0 [1; 2; 3] window3 [10; 20; 30]%float
  = Ok [ {| row_asset := 1; longs := true; shorts := true; ranking := Some 2 |};
         {| row_asset := 2; longs := true; shorts := true; ranking := Some 1 |};
         {| row_asset := 3; longs := false; shorts := false; ranking := None |} ].
Proof. vm_compute. reflexivity. Qed.

(** An order desk that rejects the first order: the rebalancing stops there
    with that exception. *)
Example rejected_order_propagates :
  let fd := run_pipeline (compute_factors small_settings) day5 in
  let out := run sim_rejecting (rebalance small_settings Context BarData)
                 (world_of fd [1; 2; 3; 4; 5; 9]) in
  out.2 = Raise (EngineError 3) /\
  last out.1 = Some (Raised (order_target_percent 9 0%float) (EngineError 3)) /\
  length out.1 = 8.
Proof. vm_compute. repeat split. Qed.

(* ===================================================================== *)
(** * Further properties of the factor transform *)
(* ===================================================================== *)

Lemma isna_sub_l x y : isna x = true -> isna (x - y)%float = true.
Proof.
  unfold isna. rewrite !is_nan_spec, FloatAxioms.sub_spec. intros ->. reflexivity.
Qed.

Lemma isna_div_l x y : isna x = true -> isna (x / y)%float = true.
Proof.
  unfold isna. rewrite !is_nan_spec, FloatAxioms.div_spec. intros ->. reflexivity.
Qed.

Lemma isna_div_r x y : isna y = true -> isna (x / y)%float = true.
Proof.
  unfold isna. rewrite !is_nan_spec, FloatAxioms.div_spec. intros ->.
  unfold SF64div, SFdiv. destruct (Prim2SF x); reflexivity.
Qed.

Lemma nanstd_few_observations w :
  count_notna w <= 1 -> isna (nanstd default_ddof w) = true.
Proof.
  intros H. unfold nanstd, nanvar, default_ddof.
  destruct (Nat.leb_spec (count_notna w) 1) as [_|Hgt]; [reflexivity|lia].
Qed.

Lemma length_compute_values df r :
  rectangular df -> last df = Some r ->
  length (series_div (series_sub r (df_mean df)) (df_std df)) = ncols df.
Proof.
  intros Hrect Hlast.
  unfold series_div, series_sub, df_mean, df_std.
  rewrite !length_series_binop, !length_map, length_columns.
  rewrite (last_rectangular _ _ Hrect Hlast). lia.
Qed.

(** X1. On a rectangular window, [compute] fails in two ways only: with
    IndexError when the window has no row, and with ValueError when the
    number of columns is neither the length of [out] nor 1.  Otherwise it
    returns, and [out] keeps its length. *)
Theorem compute_outcome self today assets out monthly_returns :
  rectangular monthly_returns ->
  match MeanReversion.compute self today assets out monthly_returns with
  | Ok out' =>
      monthly_returns <> [] /\ length out' = length out /\
      (ncols monthly_returns = length out \/ ncols monthly_returns = 1)
  | Raise IndexError => monthly_returns = []
  | Raise ValueError =>
      monthly_returns <> [] /\
      ncols monthly_returns <> length out /\ ncols monthly_returns <> 1
  | Raise (EngineError _) => False
  end.
Proof.
  intros Hrect. unfold MeanReversion.compute, pd_DataFrame, iloc_last.
  destruct (last monthly_returns) as [r|] eqn:Hlast; cbn [rbind].
  - assert (Hne : monthly_returns <> []) by (intros ->; discriminate).
    pose proof (length_compute_values _ _ Hrect Hlast) as Hlen.
    set (values := series_div _ _) in *. unfold setitem_all.
    destruct (Nat.eqb_spec (length values) (length out)) as [Heq|Hneq].
    + split; [exact Hne|]. split; [exact Heq|]. left. congruence.
    + destruct values as [|v [|v' values']].
      * cbn [length] in Hlen, Hneq. repeat split; auto; lia.
      * cbn [length] in Hlen. split; [exact Hne|]. split; [apply repeat_length|]. right. lia.
      * cbn [length] in Hlen, Hneq. repeat split; auto; lia.
  - apply last_None in Hlast. exact Hlast.
Qed.

Lemma compute_outcome_witness :
  MeanReversion.compute (MeanReversion.make notebook_settings) 0 [7; 8] [0; 0; 0]%float
    [[1; 2]; [3; 5]]%float = Raise ValueError.
Proof.
  assert (Hrect : rectangular [[1; 2]; [3; 5]]%float)
    by (repeat constructor).
  pose proof (compute_outcome (MeanReversion.make notebook_settings) 0 [7; 8]
                [0; 0; 0]%float [[1; 2]; [3; 5]]%float Hrect) as H.
  destruct (MeanReversion.compute _ _ _ _ _) as [out'|[| |code]] eqn:E.
  - destruct H as (_ & _ & [H|H]); vm_compute in H; discriminate.
  - discriminate.
  - reflexivity.
  - destruct H.
Defined.

(** A score whose numerator or denominator is undefined. *)
Lemma score_cell_missing (w : list float) :
  isna (List.last w PrimFloat.nan) = true \/ count_notna w <= 1 ->
  isna ((List.last w PrimFloat.nan - nanmean w) / nanstd default_ddof w)%float = true.
Proof.
  intros [Hlast|Hfew].
  - apply isna_div_l, isna_sub_l, Hlast.
  - apply isna_div_r, nanstd_few_observations, Hfew.
Qed.

(** X2. An asset whose latest return is missing, or that has at most one
    return in the window, gets a missing score (NaN). *)
Theorem score_missing_without_data self today assets out monthly_returns j :
  rectangular monthly_returns ->
  length out = ncols monthly_returns ->
  1 <= length monthly_returns ->
  j < ncols monthly_returns ->
  isna (List.last (column j monthly_returns) PrimFloat.nan) = true \/
  count_notna (column j monthly_returns) <= 1 ->
  exists out' s,
    MeanReversion.compute self today assets out monthly_returns = Ok out' /\
    out' !! j = Some s /\ isna s = true.
Proof.
  intros Hrect Hout Hlen Hj Hcase.
  destruct (compute_cells self today assets out _ Hrect Hout Hlen) as (out' & Hc & _ & Hcells).
  exists out'. eexists. split; [exact Hc|]. split; [apply Hcells, Hj|].
  apply score_cell_missing, Hcase.
Qed.

Lemma score_missing_without_data_witness :
  exists out' s,
    MeanReversion.compute (MeanReversion.make notebook_settings) 0 [7; 8] [0; 0]%float
      window_new_listing = Ok out' /\
    out' !! 1 = Some s /\ isna s = true.
Proof.
  apply (score_missing_without_data _ 0 [7; 8] [0; 0]%float window_new_listing 1).
  - repeat constructor.
  - reflexivity.
  - cbn. lia.
  - cbn. lia.
  - right. vm_compute. lia.
Defined.



(* ===================================================================== *)
(** * Further properties of the ranking and of the factor table *)
(* ===================================================================== *)

Lemma map_position_self (l : list nat) :
  NoDup l -> map (fun i => position i l) l = seq 0 (length l).
Proof.
  intros Hnd. apply list_eq. intros p.
  rewrite lookup_map.
  destruct (l !! p) as [i|] eqn:Hp; cbn.
  - rewrite (lookup_position p i l Hnd Hp).
    symmetry. apply lookup_seq. split; [reflexivity|].
    apply lookup_lt_Some in Hp. exact Hp.
  - symmetry. apply lookup_seq_ge. apply lookup_ge_None in Hp. exact Hp.
Qed.

Lemma defined_ranks_eq asc data :
  defined_ranks (rank asc data)
  = map (fun i => S (place asc data i)) (filter (valid_at data) (seq 0 (length data))).
Proof.
  rewrite rank_eq. unfold defined_ranks.
  induction (seq 0 (length data)) as [|i l IH]; [reflexivity|].
  cbn [map omap list_omap]. unfold valid_at at 1.
  destruct (isna (key_of data i)) eqn:E.
  - rewrite filter_cons_False by (unfold valid_at; congruence). exact IH.
  - rewrite filter_cons_True by exact E. cbn [map id]. f_equal. exact IH.
Qed.

(** X4. The ranking column numbers the assets that have a score 1, 2, ...,
    m without gap or repetition (m the number of scores that are not NaN),
    and an asset has no rank exactly when its score is NaN. *)
Theorem ranks_are_one_to_m asc data :
  defined_ranks (rank asc data) ≡ₚ seq 1 (count_notna data) /\
  (forall i, i < length data ->
     (List.nth i (rank asc data) None = None <-> isna (key_of data i) = true)).
Proof.
  split.
  - rewrite defined_ranks_eq.
    assert (Hperm : filter (valid_at data) (seq 0 (length data)) ≡ₚ valid_order asc data).
    { apply NoDup_Permutation.
      - apply NoDup_filter, NoDup_seq.
      - apply valid_order_NoDup.
      - intros i. rewrite elem_of_valid_order, list_elem_of_filter, elem_of_seq.
        split; [tauto|]. intros Hv. split; [exact Hv|].
        pose proof (valid_at_lt _ _ Hv). lia. }
    rewrite (Permutation_map _ Hperm).
    rewrite <- (length_valid_order asc data).
    replace (map (fun i => S (place asc data i)) (valid_order asc data))
      with (map S (map (fun i => position i (valid_order asc data)) (valid_order asc data))).
    + rewrite (map_position_self _ (valid_order_NoDup asc data)).
      rewrite <- (fmap_S_seq 0). reflexivity.
    + rewrite map_map. apply map_ext_in. intros i Hi.
      rewrite place_valid_order; [reflexivity|].
      apply elem_of_valid_order with (asc := asc). apply list_elem_of_In. exact Hi.
  - intros i Hi. rewrite nth_rank by exact Hi.
    destruct (isna (key_of data i)); split; congruence.
Qed.

Lemma eqb_fkey a b : (a =? b)%float = true -> fkey a = fkey b.
Proof. intros H. apply eqb_lex in H. tauto. Qed.

Lemma eqb_before_sort_keys asc data a b :
  a < b -> b < length data ->
  (key_of data a =? key_of data b)%float = true ->
  before (key_of (sort_keys asc data)) a b.
Proof.
  intros Hab Hb Heq. right. split; [|exact Hab].
  destruct asc; cbn [sort_keys].
  - apply eqb_fkey, Heq.
  - rewrite !key_of_opp by lia.
    pose proof (proj1 (eqb_lex _ _) Heq) as [Hk Hna].
    rewrite !fkey_opp; [rewrite Hk; reflexivity| rewrite <- Hk; exact Hna | exact Hna].
Qed.

(** X5. Ties are broken by position, in the ascending and in the descending
    ranking alike: of two assets with equal scores, the one that stands
    earlier in the universe gets the smaller rank. *)
Theorem ties_rank_by_position asc data a b :
  a < b -> b < length data ->
  (key_of data a =? key_of data b)%float = true ->
  exists ka kb,
    List.nth a (rank asc data) None = Some ka /\
    List.nth b (rank asc data) None = Some kb /\
    ka < kb.
Proof.
  intros Hab Hb Heq.
  pose proof (eqb_before_sort_keys asc data a b Hab Hb Heq) as Hbefore.
  assert (Hnb : isna (key_of data b) = false) by (apply (eqb_true_notna _ _ Heq)).
  assert (Hna : isna (key_of data a) = false).
  { rewrite eqb_sym in Heq. apply (eqb_true_notna _ _ Heq). }
  exists (S (place asc data a)), (S (place asc data b)).
  rewrite !nth_rank by lia. rewrite Hna, Hnb. split; [reflexivity|]. split; [reflexivity|].
  unfold place. rewrite argsort_sort_upto, length_sort_keys.
  apply -> Nat.succ_lt_mono.
  apply position_mono; [lia|lia|exact Hbefore].
Qed.

Lemma ties_rank_by_position_witness :
  exists ka kb,
    List.nth 1 (rank false (mean_reversion day_one_tie)) None = Some ka /\
    List.nth 2 (rank false (mean_reversion day_one_tie)) None = Some kb /\
    ka < kb.
Proof.
  apply ties_rank_by_position.
  - lia.
  - cbn. lia.
  - reflexivity.
Defined.

Lemma count_flag_positions asc N data :
  length (filter (fun i => List.nth i (map (rank_le N) (rank asc data)) false = true)
                 (seq 0 (length data)))
  = min N (count_notna data).
Proof.
  transitivity
    (length (filter (fun b : bool => b = true)
               (map (fun i => List.nth i (map (rank_le N) (rank asc data)) false)
                    (seq 0 (length data))))).
  - symmetry.
    exact (length_filter_map
             (fun i => List.nth i (map (rank_le N) (rank asc data)) false)
             (fun b : bool => b = true) (seq 0 (length data))).
  - rewrite <- flags_eq. apply count_flags.
Qed.

Lemma length_omap_flags {A} (f : nat -> option A) (g : nat -> bool) (l : list nat) :
  (forall i, i ∈ l -> (is_Some (f i) <-> g i = true)) ->
  length (omap f l) = length (filter (fun i => g i = true) l).
Proof.
  induction l as [|i l IH]; intros H; [reflexivity|].
  assert (Hl : forall j, j ∈ l -> (is_Some (f j) <-> g j = true)).
  { intros j Hj. apply H. right. exact Hj. }
  specialize (H i (list_elem_of_here _ _)). cbn [omap list_omap].
  destruct (f i) as [r|] eqn:Hf.
  - rewrite filter_cons_True by (apply H; eauto). cbn [length]. f_equal. apply IH, Hl.
  - rewrite filter_cons_False.
    + apply IH, Hl.
    + intros Hg. apply H in Hg. destruct Hg as [? Hg]. discriminate.
Qed.

Lemma length_filter_omap_le {A} (col : A -> bool) (f : nat -> option A) (g : nat -> bool)
    (l : list nat) :
  (forall i r, f i = Some r -> col r = true -> g i = true) ->
  length (List.filter col (omap f l)) <= length (filter (fun i => g i = true) l).
Proof.
  intros H. induction l as [|i l IH]; [reflexivity|].
  cbn [omap list_omap].
  destruct (f i) as [r|] eqn:Hf.
  - cbn [List.filter]. destruct (col r) eqn:Hc.
    + rewrite filter_cons_True by (eapply H; eauto). cbn [length]. lia.
    + destruct (decide (g i = true)) as [Hg|Hg].
      * rewrite filter_cons_True by exact Hg. cbn [length]. lia.
      * rewrite filter_cons_False by exact Hg. exact IH.
  - destruct (decide (g i = true)) as [Hg|Hg].
    + rewrite filter_cons_True by exact Hg. cbn [length]. lia.
    + rewrite filter_cons_False by exact Hg. exact IH.
Qed.

Lemma index_sublist_from p d m k :
  map row_asset (omap (pipeline_row p d) (seq k m)) `sublist_of` drop k (universe d).
Proof.
  revert k. induction m as [|m IH]; intros k; [apply sublist_nil_l|].
  cbn [seq omap list_omap].
  destruct (universe d !! k) as [a|] eqn:Hk.
  - rewrite (drop_S _ _ _ Hk).
    destruct (pipeline_row p d k) as [r|] eqn:Hrow.
    + apply pipeline_row_Some in Hrow as (_ & a' & Ha' & ->).
      rewrite Hk in Ha'. injection Ha' as <-. cbn [map row_asset].
      apply sublist_skip, IH.
    + apply sublist_cons, IH.
  - assert (Hrow : pipeline_row p d k = None).
    { unfold pipeline_row. rewrite Hk. destruct (List.nth k (screen p d) false); reflexivity. }
    rewrite Hrow. etransitivity; [apply IH|].
    apply lookup_ge_None in Hk. rewrite !drop_ge by lia. reflexivity.
Qed.

(** X6. The factor table of a day has exactly min(VOL_SCREEN, assets with a
    dollar volume) rows; its index lists assets of the universe in the
    order of the universe; and at most N_LONGS of its rows are flagged long
    and at most N_SHORTS short. *)
Theorem factor_table_size cfg d :
  well_formed d ->
  length (run_pipeline (compute_factors cfg) d)
    = min (VOL_SCREEN cfg) (count_notna (dollar_volume d)) /\
  index (run_pipeline (compute_factors cfg) d) `sublist_of` universe d /\
  length (long_set (run_pipeline (compute_factors cfg) d)) <= N_LONGS cfg /\
  length (short_set (run_pipeline (compute_factors cfg) d)) <= N_SHORTS cfg.
Proof.
  intros (Hmr & Hdv & Hnd). split; [|split; [|split]].
  - unfold run_pipeline.
    rewrite (length_omap_flags _
               (fun i => List.nth i (top (VOL_SCREEN cfg) (dollar_volume d)) false)).
    + rewrite <- Hdv. apply count_flag_positions.
    + intros i Hi. apply elem_of_seq in Hi.
      destruct (universe d !! i) as [a|] eqn:Ha.
      2:{ apply lookup_ge_None in Ha. lia. }
      split.
      * intros [r Hr]. apply pipeline_row_Some in Hr. apply Hr.
      * intros Hflag. eexists. apply pipeline_row_Some. split; [exact Hflag|].
        exists a. split; [exact Ha|reflexivity].
  - unfold index, run_pipeline. apply (index_sublist_from _ d (length (universe d)) 0).
  - unfold long_set, index_where, run_pipeline. rewrite length_map.
    etransitivity.
    + apply (length_filter_omap_le longs _
               (fun i => List.nth i (bottom (N_LONGS cfg) (mean_reversion d)) false)).
      intros i r Hr Hc. apply pipeline_row_Some in Hr as (_ & a & _ & ->). exact Hc.
    + rewrite <- Hmr. unfold bottom. rewrite count_flag_positions. lia.
  - unfold short_set, index_where, run_pipeline. rewrite length_map.
    etransitivity.
    + apply (length_filter_omap_le shorts _
               (fun i => List.nth i (top (N_SHORTS cfg) (mean_reversion d)) false)).
      intros i r Hr Hc. apply pipeline_row_Some in Hr as (_ & a & _ & ->). exact Hc.
    + rewrite <- Hmr. unfold top. rewrite count_flag_positions. lia.
Qed.

Lemma factor_table_size_witness :
  length (run_pipeline (compute_factors screened_settings) day5)
    = min (VOL_SCREEN screened_settings) (count_notna (dollar_volume day5)) /\
  index (run_pipeline (compute_factors screened_settings) day5) `sublist_of` universe day5 /\
  length (long_set (run_pipeline (compute_factors screened_settings) day5))
    <= N_LONGS screened_settings /\
  length (short_set (run_pipeline (compute_factors screened_settings) day5))
    <= N_SHORTS screened_settings.
Proof.
  apply factor_table_size.
  split; [reflexivity|]. split; [reflexivity|].
  repeat (apply NoDup_cons_2; [rewrite ?elem_of_cons, elem_of_nil; intuition lia|]).
  apply NoDup_nil_2.
Defined.

(* ===================================================================== *)
(** * Further properties of the callbacks *)
(* ===================================================================== *)

Lemma orders_of_app tr1 tr2 : orders_of (tr1 ++ tr2) = orders_of tr1 ++ orders_of tr2.
Proof. unfold orders_of. apply omap_app. Qed.



(** X7. [before_trading_start] never requests an order and makes at most
    seven engine calls, whatever the engine answers and also when a call
    fails. *)
Theorem before_trading_start_never_orders {W} (h : Handler W) (w : W) context data :
  orders_of (run h (before_trading_start context data) w).1 = [] /\
  length (run h (before_trading_start context data) w).1 <= 7.
Proof.
  unfold before_trading_start. cbn [run prog_bind call].
  destruct (h _ (pipeline_output _) w) as [[fd w1]|e]; cbn [run prog_bind call];
    [|split; [reflexivity|cbn; lia]].
  destruct (h _ (set_factor_data fd) w1) as [[u1 w2]|e]; cbn [run prog_bind call];
    [|split; [reflexivity|cbn; lia]].
  destruct (h _ get_factor_data w2) as [[fd1 w3]|e]; cbn [run prog_bind call];
    [|split; [reflexivity|cbn; lia]].
  destruct (h _ (record _ _) w3) as [[u2 w4]|e]; cbn [run prog_bind call];
    [|split; [reflexivity|cbn; lia]].
  destruct (h _ get_factor_data w4) as [[fd2 w5]|e]; cbn [run prog_bind call];
    [|split; [reflexivity|cbn; lia]].
  destruct (h _ (data_current _ _) w5) as [[prices w6]|e]; cbn [run prog_bind call];
    [|split; [reflexivity|cbn; lia]].
  destruct (h _ (record _ _) w6) as [[u3 w7]|e]; cbn [run prog_bind call];
    split; try reflexivity; cbn; lia.
Qed.

(** X8. When the context keeps its attribute like a Python object, a run of
    [before_trading_start] that returns has stored the day's pipeline
    output in [context.factor_data], recorded the ranking column of that
    table, asked the current prices of exactly the assets of its index and
    recorded them; the table is still on the context at the end. *)
Theorem before_trading_start_records {W} (h : Handler W)
    (attr : W -> option (list FactorRow)) (w : W) context data tr u w' :
  attribute_store h attr ->
  run h (before_trading_start context data) w = (tr, Ok (u, w')) ->
  exists fd prices,
    tr = [ Returned (pipeline_output "factor_pipeline") fd;
           Returned (set_factor_data fd) tt;
           Returned get_factor_data fd;
           Returned (record "factor_data"
                       (RecRanking (map (fun r => (row_asset r, ranking r)) fd))) tt;
           Returned get_factor_data fd;
           Returned (data_current (index fd) "price") prices;
           Returned (record "prices" (RecPrices prices)) tt ] /\
    attr w' = Some fd.
Proof.
  intros (Hset & Hget & Hrec & Hcur).
  unfold before_trading_start. cbn [run prog_bind call].
  destruct (h _ (pipeline_output _) w) as [[fd w1]|e] eqn:E1; cbn [run prog_bind call];
    [|discriminate].
  destruct (h _ (set_factor_data fd) w1) as [[[] w2]|e] eqn:E2; cbn [run prog_bind call];
    [|discriminate].
  destruct (h _ get_factor_data w2) as [[fd1 w3]|e] eqn:E3; cbn [run prog_bind call];
    [|discriminate].
  destruct (h _ (record _ _) w3) as [[[] w4]|e] eqn:E4; cbn [run prog_bind call];
    [|discriminate].
  destruct (h _ get_factor_data w4) as [[fd2 w5]|e] eqn:E5; cbn [run prog_bind call];
    [|discriminate].
  destruct (h _ (data_current _ _) w5) as [[prices w6]|e] eqn:E6; cbn [run prog_bind call];
    [|discriminate].
  destruct (h _ (record _ _) w6) as [[[] w7]|e] eqn:E7; cbn [run prog_bind call];
    [|discriminate].
  intros Hrun. injection Hrun as <- <- <-.
  pose proof (Hset _ _ _ _ E2) as A2.
  destruct (Hget _ _ _ E3) as [A3 A3'].
  pose proof (Hrec _ _ _ _ _ E4) as A4.
  destruct (Hget _ _ _ E5) as [A5 A5'].
  pose proof (Hcur _ _ _ _ _ E6) as A6.
  pose proof (Hrec _ _ _ _ _ E7) as A7.
  assert (fd1 = fd) by congruence. assert (fd2 = fd) by congruence. subst fd1 fd2.
  exists fd, prices. split; [reflexivity|]. congruence.
Qed.

Lemma attribute_store_sim : attribute_store sim context_factor_data.
Proof.
  repeat split.
  - intros fd w u w' H. cbn in H. injection H as _ <-. reflexivity.
  - cbn in H. destruct (context_factor_data w); [|discriminate].
    injection H as -> _. reflexivity.
  - cbn in H. destruct (context_factor_data w) eqn:E; [|discriminate].
    injection H as -> <-. exact E.
  - intros name v w u w' H. cbn in H. injection H as _ <-. reflexivity.
  - intros assets field w p w' H. cbn in H. injection H as _ <-. reflexivity.
Qed.

Lemma before_trading_start_records_witness :
  exists fd prices,
    (run sim (before_trading_start Context BarData)
       (world_of (run_pipeline (compute_factors small_settings) day5) [1; 2])).1
    = [ Returned (pipeline_output "factor_pipeline") fd;
        Returned (set_factor_data fd) tt;
        Returned get_factor_data fd;
        Returned (record "factor_data"
                    (RecRanking (map (fun r => (row_asset r, ranking r)) fd))) tt;
        Returned get_factor_data fd;
        Returned (data_current (index fd) "price") prices;
        Returned (record "prices" (RecPrices prices)) tt ].
Proof.
  destruct (run sim (before_trading_start Context BarData)
              (world_of (run_pipeline (compute_factors small_settings) day5) [1; 2]))
    as [tr [[u w']|e]] eqn:E.
  - destruct (before_trading_start_records sim context_factor_data _ _ _ _ _ _
                attribute_store_sim E) as (fd & prices & Htr & _).
    exists fd, prices. exact Htr.
  - vm_compute in E. discriminate.
Defined.

Lemma exec_trades_cons_sublist (x : nat * float) l1 l2 rest :
  l1 `sublist_of` [x] -> l2 `sublist_of` rest -> l1 ++ l2 `sublist_of` x :: rest.
Proof. intros H1 H2. change (x :: rest) with ([x] ++ rest). apply sublist_app; assumption. Qed.

Lemma exec_trades_in_sequence {W} (h : Handler W) data assets target_percent w :
  orders_of (run h (exec_trades data assets target_percent) w).1
    `sublist_of` round assets target_percent.
Proof.
  revert w. induction assets as [|a rest IH]; intros w; [reflexivity|].
  cbn [exec_trades round map]. rewrite run_bind. cbn [run prog_bind call].
  fold (round rest target_percent).
  destruct (h bool (data_can_trade a) w) as [[[|] w1]|e]; cbn [run prog_bind call].
  - destruct (h _ (get_open_orders a) w1) as [[[|o os] w2]|e]; cbn [run prog_bind call].
    + destruct (h _ (order_target_percent a target_percent) w2) as [[x w3]|e];
        cbn [run prog_bind call].
      * specialize (IH w3). destruct (run h (exec_trades data rest target_percent) w3).
        cbn in *. apply sublist_skip, IH.
      * cbn. apply sublist_skip, sublist_nil_l.
    + specialize (IH w2). destruct (run h (exec_trades data rest target_percent) w2).
      cbn in *. apply sublist_cons, IH.
    + cbn. apply sublist_nil_l.
  - specialize (IH w1). destruct (run h (exec_trades data rest target_percent) w1).
    cbn in *. apply sublist_cons, IH.
  - cbn. apply sublist_nil_l.
Qed.

(** X9. The orders of [exec_trades] follow the sequence of its assets: they
    are requested in the order of [assets], at most one for each entry,
    each with [target_percent]; an empty collection makes no call. *)
Theorem exec_trades_orders_in_sequence {W} (h : Handler W) (w : W)
    data assets target_percent :
  orders_of (run h (exec_trades data assets target_percent) w).1
    `sublist_of` round assets target_percent /\
  run h (exec_trades data [] target_percent) w = ([], Ok (tt, w)).
Proof. split; [apply exec_trades_in_sequence|reflexivity]. Qed.




(* ===================================================================== *)
(** * Rebalancing against the simulated engine *)
(* ===================================================================== *)

Lemma existsb_eqb_elem_of a l : existsb (Nat.eqb a) l = true <-> a ∈ l.
Proof.
  rewrite existsb_exists. split.
  - intros (x & Hin & Heq). apply Nat.eqb_eq in Heq as ->. apply list_elem_of_In, Hin.
  - intros Hin. exists a. split; [apply list_elem_of_In, Hin|apply Nat.eqb_refl].
Qed.

Lemma extends_refl w : extends w w [].
Proof.
  unfold extends. rewrite app_nil_r. repeat split; auto.
  - apply NoDup_nil_2.
  - intros [H|H]; [exact H|cbn in H; inversion H].
  - cbn in H. inversion H.
  - cbn in H. inversion H.
Qed.

Lemma extends_trans w1 w2 w3 n1 n2 :
  extends w1 w2 n1 -> extends w2 w3 n2 -> extends w1 w3 (n1 ++ n2).
Proof.
  intros (S1 & C1 & T1 & P1 & D1 & O1 & N1) (S2 & C2 & T2 & P2 & D2 & O2 & N2).
  unfold extends. rewrite map_app.
  split; [rewrite S2, S1, app_assoc; reflexivity|].
  split; [congruence|]. split; [congruence|]. split; [congruence|].
  split; [|split].
  - apply NoDup_app. split; [exact D1|]. split; [|exact D2].
    intros a Ha1 Ha2. apply N2 in Ha2 as [_ Hno]. apply Hno, O1. right. exact Ha1.
  - intros a. rewrite O2, O1, elem_of_app. tauto.
  - intros a Ha. apply elem_of_app in Ha as [Ha|Ha].
    + apply N1, Ha.
    + apply N2 in Ha as [Ht Hno]. split; [rewrite <- T1; exact Ht|].
      intros Hopen. apply Hno, O1. left. exact Hopen.
Qed.

Lemma sim_order_extends a t w :
  a ∈ tradeable w -> List.filter (has_asset a) (open_orders w) = [] ->
  extends w
    {| pipeline_today := pipeline_today w;
       context_factor_data := context_factor_data w;
       tradeable := tradeable w;
       open_orders := {| order_asset := a; order_id := length (submitted w) |} :: open_orders w;
       positions := positions w; value_today := value_today w;
       now_today := now_today w; price_today := price_today w;
       submitted := submitted w ++ [(a, t)] |}
    [(a, t)].
Proof.
  intros Hcan Hopen. unfold extends.
  cbn [submitted context_factor_data tradeable positions map fst].
  assert (Hiff : forall b,
            List.filter (has_asset b)
              ({| order_asset := a; order_id := length (submitted w) |} :: open_orders w) <> []
            <-> List.filter (has_asset b) (open_orders w) <> [] \/ b = a).
  { intros b. cbn [List.filter]. unfold has_asset at 1. cbn [order_asset].
    destruct (Nat.eqb_spec a b) as [->|Hne].
    - split; [intros _; right; reflexivity|intros _; discriminate].
    - split; [intros H; left; exact H|intros [H|H]; [exact H|congruence]]. }
  split; [reflexivity|]. split; [reflexivity|]. split; [reflexivity|].
  split; [reflexivity|]. split; [apply NoDup_singleton|]. split.
  - intros b. unfold open_for. cbn [open_orders]. rewrite Hiff, list_elem_of_singleton.
    reflexivity.
  - intros b Hb. apply list_elem_of_singleton in Hb as ->. split; [exact Hcan|].
    unfold open_for. rewrite Hopen. tauto.
Qed.

Lemma sim_exec_trades data assets t w :
  exists tr w' new,
    run sim (exec_trades data assets t) w = (tr, Ok (tt, w')) /\
    extends w w' new /\ covered w' assets /\
    (forall x, x ∈ new -> x ∈ round assets t) /\
    (forall a, a ∈ assets -> a ∈ tradeable w -> ~ open_for w a -> (a, t) ∈ new).
Proof.
  revert w. induction assets as [|a rest IH]; intros w.
  { exists [], w, []. split; [reflexivity|]. split; [apply extends_refl|].
    split; [intros a H; inversion H|]. split; [intros x H; inversion H|].
    intros a H. inversion H. }
  cbn [exec_trades]. rewrite run_bind. cbn [run prog_bind call sim].
  destruct (existsb (Nat.eqb a) (tradeable w)) eqn:Hcan; cbn [run prog_bind call sim].
  - apply existsb_eqb_elem_of in Hcan.
    destruct (List.filter (has_asset a) (open_orders w)) as [|o os] eqn:Hopen;
      cbn [run prog_bind call sim].
    + pose proof (sim_order_extends a t w Hcan Hopen) as Hext1.
      set (w1 := Build_World _ _ _ _ _ _ _ _ _) in *.
      destruct (IH w1) as (tr & w' & new & Hrun & Hext & Hcov & Hsub & Hall). rewrite Hrun.
      eexists _, w', ([(a, t)] ++ new). split; [reflexivity|].
      split; [exact (extends_trans _ _ _ _ _ Hext1 Hext)|].
      destruct Hext1 as (_ & _ & T1 & _ & _ & O1 & _).
      split; [|split].
      * intros b Hb Hcanb. apply elem_of_cons in Hb as [->|Hb].
        -- destruct Hext as (_ & _ & _ & _ & _ & O & _). apply O. left.
           apply O1. right. apply list_elem_of_here.
        -- apply Hcov; assumption.
      * intros x Hx. cbn [app] in Hx. apply elem_of_cons in Hx as [->|Hx].
        -- apply list_elem_of_here.
        -- apply list_elem_of_further, Hsub, Hx.
      * intros b Hb Hcanb Hnob. cbn [app].
        destruct (decide (b = a)) as [->|Hne]; [apply list_elem_of_here|].
        apply list_elem_of_further, Hall.
        -- apply elem_of_cons in Hb as [Hb|Hb]; [contradiction|exact Hb].
        -- rewrite T1. exact Hcanb.
        -- intros Hopen1. apply O1 in Hopen1 as [Hopen1|Hin]; [exact (Hnob Hopen1)|].
           cbn in Hin. apply list_elem_of_singleton in Hin. contradiction.
    + destruct (IH w) as (tr & w' & new & Hrun & Hext & Hcov & Hsub & Hall). rewrite Hrun.
      eexists _, w', new. split; [reflexivity|]. split; [exact Hext|].
      split; [|split].
      * intros b Hb Hcanb. apply elem_of_cons in Hb as [->|Hb].
        -- destruct Hext as (_ & _ & _ & _ & _ & O & _). apply O. left.
           unfold open_for. rewrite Hopen. discriminate.
        -- apply Hcov; assumption.
      * intros x Hx. apply list_elem_of_further, Hsub, Hx.
      * intros b Hb Hcanb Hnob. apply Hall; [|exact Hcanb|exact Hnob].
        apply elem_of_cons in Hb as [->|Hb]; [|exact Hb].
        exfalso. apply Hnob. unfold open_for. rewrite Hopen. discriminate.
  - destruct (IH w) as (tr & w' & new & Hrun & Hext & Hcov & Hsub & Hall). rewrite Hrun.
    eexists _, w', new. split; [reflexivity|]. split; [exact Hext|].
    split; [|split].
    + intros b Hb Hcanb. apply elem_of_cons in Hb as [->|Hb].
      * destruct Hext as (_ & _ & Ht & _). rewrite Ht in Hcanb.
        apply existsb_eqb_elem_of in Hcanb. congruence.
      * apply Hcov; assumption.
    + intros x Hx. apply list_elem_of_further, Hsub, Hx.
    + intros b Hb Hcanb Hnob. apply Hall; [|exact Hcanb|exact Hnob].
      apply elem_of_cons in Hb as [->|Hb]; [|exact Hb].
      apply existsb_eqb_elem_of in Hcanb. congruence.
Qed.

Lemma covered_extends w w' new assets :
  extends w w' new -> covered w assets -> covered w' assets.
Proof.
  intros (_ & _ & Ht & _ & _ & O & _) Hcov a Ha Hcan.
  apply O. left. apply Hcov; [exact Ha|]. rewrite <- Ht. exact Hcan.
Qed.

Lemma covered_app w l1 l2 : covered w l1 -> covered w l2 -> covered w (l1 ++ l2).
Proof. intros H1 H2 a Ha. apply elem_of_app in Ha as [Ha|Ha]; [apply H1|apply H2]; exact Ha. Qed.

Lemma elem_of_round x assets t : x ∈ round assets t -> x.1 ∈ assets /\ x.2 = t.
Proof.
  unfold round. intros H. apply list_elem_of_In, in_map_iff in H as (a & <- & Ha).
  split; [apply list_elem_of_In, Ha|reflexivity].
Qed.

Lemma elem_of_map_fst (a : nat) (l : list (nat * float)) :
  a ∈ map fst l -> exists t, (a, t) ∈ l.
Proof.
  intros H. apply list_elem_of_In, in_map_iff in H as ([a' t] & <- & Hin).
  exists t. apply list_elem_of_In, Hin.
Qed.

Lemma NoDup_map_fst_eq (l : list (nat * float)) a t1 t2 :
  NoDup (map fst l) -> (a, t1) ∈ l -> (a, t2) ∈ l -> t1 = t2.
Proof.
  induction l as [|[b t] l IH]; intros Hnd H1 H2; [inversion H1|].
  cbn [map fst] in Hnd. apply NoDup_cons in Hnd as [Hb Hnd].
  assert (Hin : forall t', (b, t') ∈ l -> False).
  { intros t' H. apply Hb. apply list_elem_of_In, in_map_iff. exists (b, t').
    split; [reflexivity|apply list_elem_of_In, H]. }
  apply elem_of_cons in H1 as [E1|H1], H2 as [E2|H2].
  - congruence.
  - injection E1 as -> ->. destruct (Hin _ H2).
  - injection E2 as -> ->. destruct (Hin _ H1).
  - apply IH; assumption.
Qed.

(** What the three rounds submit to the simulated engine. *)
Lemma sim_trades cfg data fd held w :
  exists tr w' new,
    run sim (trades cfg data fd held) w = (tr, Ok (tt, w')) /\
    extends w w' new /\
    covered w' (elements (divest_set fd held) ++ long_set fd ++ short_set fd) /\
    (forall a, a ∈ tradeable w -> ~ open_for w a ->
       (a ∈ divest_set fd held -> (a, 0%float) ∈ new) /\
       (a ∈ long_set fd -> (a, long_target cfg) ∈ new) /\
       (a ∈ short_set fd -> a ∉ long_set fd -> (a, short_target cfg) ∈ new)).
Proof.
  unfold trades.
  destruct (sim_exec_trades data (elements (divest_set fd held)) 0%float w)
    as (tr1 & w1 & n1 & R1 & E1 & C1 & S1 & A1).
  destruct (sim_exec_trades data (long_set fd) (long_target cfg) w1)
    as (tr2 & w2 & n2 & R2 & E2 & C2 & S2 & A2).
  destruct (sim_exec_trades data (short_set fd) (short_target cfg) w2)
    as (tr3 & w3 & n3 & R3 & E3 & C3 & S3 & A3).
  rewrite run_bind, R1, run_bind, R2, R3.
  eexists _, w3, (n1 ++ n2 ++ n3). split; [reflexivity|]. split; [|split].
  - exact (extends_trans _ _ _ _ _ E1 (extends_trans _ _ _ _ _ E2 E3)).
  - apply covered_app; [|apply covered_app].
    + apply (covered_extends _ _ _ _ E3), (covered_extends _ _ _ _ E2), C1.
    + apply (covered_extends _ _ _ _ E3), C2.
    + exact C3.
  - intros a Hcan Hno.
    destruct E1 as (_ & _ & T1 & _ & _ & O1 & _).
    destruct E2 as (_ & _ & T2 & _ & _ & O2 & _).
    assert (Hn1 : a ∈ map fst n1 -> a ∈ divest_set fd held).
    { intros H. apply elem_of_map_fst in H as [t H]. apply S1, elem_of_round in H as [H _].
      apply elem_of_elements in H. exact H. }
    assert (Hn2 : a ∈ map fst n2 -> a ∈ long_set fd).
    { intros H. apply elem_of_map_fst in H as [t H]. apply S2, elem_of_round in H as [H _].
      exact H. }
    rewrite !elem_of_app. split; [|split].
    + intros Hd. left. apply A1; [apply elem_of_elements, Hd|exact Hcan|exact Hno].
    + intros Hl. right. left. apply A2; [exact Hl|rewrite T1; exact Hcan|].
      intros Hopen. apply O1 in Hopen as [Hopen|Hin]; [exact (Hno Hopen)|].
      apply Hn1, elem_of_divest_set in Hin. tauto.
    + intros Hs Hnl. right. right.
      apply A3; [exact Hs|rewrite T2, T1; exact Hcan|].
      intros Hopen. apply O2 in Hopen as [Hopen|Hin].
      * apply O1 in Hopen as [Hopen|Hin]; [exact (Hno Hopen)|].
        apply Hn1, elem_of_divest_set in Hin. tauto.
      * apply Hnl, Hn2, Hin.
Qed.

Lemma sim_rebalance cfg context data w :
  run sim (rebalance cfg context data) w =
  match context_factor_data w with
  | None => ([Raised get_factor_data (EngineError 2)], Raise (EngineError 2))
  | Some fd =>
      (Returned get_factor_data fd :: Returned portfolio_positions_keys (positions w) ::
       Returned get_datetime (now_today w) :: Returned portfolio_value (value_today w) ::
       Returned (log_info {| log_date := now_today w; log_longs := length (long_set fd);
                             log_shorts := length (short_set fd);
                             log_value := value_today w |}) tt ::
       (run sim (trades cfg data fd (positions w)) w).1,
       (run sim (trades cfg data fd (positions w)) w).2)
  end.
Proof.
  unfold rebalance. cbn [run prog_bind call sim].
  destruct (context_factor_data w) as [fd|]; [|reflexivity].
  cbn [run prog_bind call sim].
  fold (divest_set fd (positions w)).
  change (prog_bind (exec_trades data (elements (divest_set fd (positions w))) 0%float) _)
    with (trades cfg data fd (positions w)).
  destruct (run sim (trades cfg data fd (positions w)) w) as [tr r]. reflexivity.
Qed.

(** X11. Against an engine that keeps an accepted order open for the rest
    of the bar, [rebalance] returns once the factor table is on the context,
    and it sends at most one order per asset, even for an asset that is
    flagged long and short at once: the orders it adds are for different
    assets, each tradeable and without an open order beforehand. *)
Theorem rebalance_one_order_per_asset cfg context data w fd :
  context_factor_data w = Some fd ->
  exists tr w' new,
    run sim (rebalance cfg context data) w = (tr, Ok (tt, w')) /\
    submitted w' = submitted w ++ new /\
    NoDup (map fst new) /\
    (forall a, a ∈ map fst new -> a ∈ tradeable w /\ ~ open_for w a).
Proof.
  intros Hfd. rewrite sim_rebalance, Hfd.
  destruct (sim_trades cfg data fd (positions w) w) as (tr & w' & new & R & E & _ & _).
  rewrite R. eexists _, w', new. split; [reflexivity|].
  destruct E as (S & _ & _ & _ & D & _ & N). auto.
Qed.

Lemma rebalance_one_order_per_asset_witness :
  exists tr w' new,
    run sim (rebalance small_settings Context BarData)
      (world_of (run_pipeline (compute_factors small_settings) day_ties) [1; 2; 3; 4])
    = (tr, Ok (tt, w')) /\
    submitted w' = new /\
    NoDup (map fst new) /\
    (forall a, a ∈ map fst new ->
       a ∈ [1; 2; 3; 4] /\
       ~ open_for (world_of (run_pipeline (compute_factors small_settings) day_ties)
                     [1; 2; 3; 4]) a).
Proof.
  apply (rebalance_one_order_per_asset small_settings Context BarData
           (world_of (run_pipeline (compute_factors small_settings) day_ties) [1; 2; 3; 4])
           (run_pipeline (compute_factors small_settings) day_ties)).
  reflexivity.
Defined.

Lemma sim_exec_trades_covered data assets t w :
  covered w assets ->
  exists tr, run sim (exec_trades data assets t) w = (tr, Ok (tt, w)) /\ orders_of tr = [].
Proof.
  induction assets as [|a rest IH]; intros Hcov.
  { exists []. split; reflexivity. }
  assert (Hrest : covered w rest).
  { intros b Hb. apply Hcov. right. exact Hb. }
  destruct (IH Hrest) as (tr & Hrun & Hord).
  cbn [exec_trades]. rewrite run_bind. cbn [run prog_bind call sim].
  destruct (existsb (Nat.eqb a) (tradeable w)) eqn:Hcan; cbn [run prog_bind call sim].
  - apply existsb_eqb_elem_of in Hcan.
    pose proof (Hcov a (list_elem_of_here _ _) Hcan) as Hopen. unfold open_for in Hopen.
    destruct (List.filter (has_asset a) (open_orders w)) as [|o os]; [tauto|].
    cbn [run prog_bind call sim]. rewrite Hrun. eexists. split; [reflexivity|exact Hord].
  - rewrite Hrun. eexists. split; [reflexivity|exact Hord].
Qed.

Lemma sim_trades_covered cfg data fd held w :
  covered w (elements (divest_set fd held) ++ long_set fd ++ short_set fd) ->
  exists tr, run sim (trades cfg data fd held) w = (tr, Ok (tt, w)) /\ orders_of tr = [].
Proof.
  intros Hcov. unfold trades.
  destruct (sim_exec_trades_covered data (elements (divest_set fd held)) 0%float w)
    as (tr1 & R1 & O1).
  { intros a Ha. apply Hcov. rewrite !elem_of_app. tauto. }
  destruct (sim_exec_trades_covered data (long_set fd) (long_target cfg) w)
    as (tr2 & R2 & O2).
  { intros a Ha. apply Hcov. rewrite !elem_of_app. tauto. }
  destruct (sim_exec_trades_covered data (short_set fd) (short_target cfg) w)
    as (tr3 & R3 & O3).
  { intros a Ha. apply Hcov. rewrite !elem_of_app. tauto. }
  rewrite run_bind, R1, run_bind, R2, R3. eexists. split; [reflexivity|].
  rewrite !orders_of_app, O1, O2, O3. reflexivity.
Qed.

(** X12. Against the same engine, running [rebalance] a second time in the
    same bar changes nothing: the second run returns, requests no order and
    leaves the engine state as the first run left it. *)
Theorem rebalance_twice_in_one_bar cfg context data w tr w' :
  run sim (rebalance cfg context data) w = (tr, Ok (tt, w')) ->
  exists tr',
    run sim (rebalance cfg context data) w' = (tr', Ok (tt, w')) /\
    orders_of tr' = [].
Proof.
  rewrite sim_rebalance.
  destruct (context_factor_data w) as [fd|] eqn:Hfd; [|discriminate].
  destruct (sim_trades cfg data fd (positions w) w) as (tr0 & w0 & new & R & E & C & _).
  rewrite R. cbn [fst snd]. intros H. injection H as _ <-.
  destruct E as (_ & Hc & _ & Hp & _).
  rewrite sim_rebalance, Hc, Hfd, Hp.
  destruct (sim_trades_covered cfg data fd (positions w) w0 C) as (tr1 & R1 & O1).
  rewrite R1. eexists. split; [reflexivity|]. exact O1.
Qed.

Lemma rebalance_twice_in_one_bar_witness :
  exists w' tr',
    (run sim (rebalance small_settings Context BarData)
       (world_of (run_pipeline (compute_factors small_settings) day5) [1; 2; 3; 4; 5; 9])).2
    = Ok (tt, w') /\
    run sim (rebalance small_settings Context BarData) w' = (tr', Ok (tt, w')) /\
    orders_of tr' = [].
Proof.
  destruct (run sim (rebalance small_settings Context BarData)
              (world_of (run_pipeline (compute_factors small_settings) day5)
                 [1; 2; 3; 4; 5; 9])) as [tr [[[] w']|e]] eqn:E.
  - exists w'. destruct (rebalance_twice_in_one_bar _ _ _ _ _ _ E) as (tr' & H1 & H2).
    exists tr'. split; [reflexivity|]. split; assumption.
  - vm_compute in E. discriminate.
Defined.

(** X13. Against the same engine, what a rebalancing adds to the order book
    is settled asset by asset: an asset that can trade and has no open
    order gets the order with target 0 when it is to be divested, the long
    order when it is flagged long (also when it is flagged short as well),
    and the short order when it is flagged short only; and no asset gets
    two different orders. *)
Theorem rebalance_orders_by_flag cfg context data w fd :
  context_factor_data w = Some fd ->
  exists tr w' new,
    run sim (rebalance cfg context data) w = (tr, Ok (tt, w')) /\
    submitted w' = submitted w ++ new /\
    (forall a, a ∈ tradeable w -> ~ open_for w a ->
       (a ∈ divest_set fd (positions w) -> (a, 0%float) ∈ new) /\
       (a ∈ long_set fd -> (a, long_target cfg) ∈ new) /\
       (a ∈ short_set fd -> a ∉ long_set fd -> (a, short_target cfg) ∈ new)) /\
    (forall a t1 t2, (a, t1) ∈ new -> (a, t2) ∈ new -> t1 = t2).
Proof.
  intros Hfd. rewrite sim_rebalance, Hfd.
  destruct (sim_trades cfg data fd (positions w) w) as (tr & w' & new & R & E & _ & A).
  rewrite R. eexists _, w', new. split; [reflexivity|].
  destruct E as (S & _ & _ & _ & D & _ & _).
  split; [exact S|]. split; [exact A|].
  intros a t1 t2. apply NoDup_map_fst_eq, D.
Qed.

Lemma rebalance_orders_by_flag_witness :
  exists new,
    (exists tr w',
       run sim (rebalance small_settings Context BarData)
         (world_of (run_pipeline (compute_factors small_settings) day_ties) [1; 2; 3; 4])
       = (tr, Ok (tt, w')) /\ submitted w' = new) /\
    (1, long_target small_settings) ∈ new.
Proof.
  destruct (rebalance_orders_by_flag small_settings Context BarData
              (world_of (run_pipeline (compute_factors small_settings) day_ties) [1; 2; 3; 4])
              (run_pipeline (compute_factors small_settings) day_ties) eq_refl)
    as (tr & w' & new & R & S & A & _).
  exists new. split; [exists tr, w'; split; [exact R|exact S]|].
  apply (A 1).
  - cbn. rewrite !elem_of_cons. tauto.
  - unfold open_for. cbn. tauto.
  - replace (long_set _) with [1; 2] by (vm_compute; reflexivity). apply list_elem_of_here.
Defined.

(* ===================================================================== *)
(** * The two targets *)
(* ===================================================================== *)

Lemma SFdiv_opp_l x y : SFdiv prec emax (SFopp x) y = SFopp (SFdiv prec emax x y).
Proof.
  destruct x as [sx|sx| |sx mx ex], y as [sy|sy| |sy my ey]; cbn [SFdiv SFopp];
    try reflexivity; try (destruct sx, sy; reflexivity).
  destruct (SFdiv_core_binary prec emax (Z.pos mx) ex (Z.pos my) ey) as [[mz ez] lz].
  rewrite <- binary_round_aux_opp. destruct sx, sy; reflexivity.
Qed.

Lemma div_opp_l (x y : float) : ((- x) / y)%float = (- (x / y))%float.
Proof.
  apply Prim2SF_inj.
  rewrite FloatAxioms.opp_spec, !FloatAxioms.div_spec, FloatAxioms.opp_spec.
  apply SFdiv_opp_l.
Qed.

(** X14. With as many shorts as longs (and at least one), the short target
    is exactly the negated long target: [-1 / N] and [1 / N] differ in the
    sign only, also after rounding to binary64. *)
Theorem short_target_mirrors_long_target cfg :
  N_SHORTS cfg = N_LONGS cfg -> N_LONGS cfg <> 0 ->
  short_target cfg = (- long_target cfg)%float.
Proof.
  intros Heq Hne. unfold short_target, long_target. rewrite Heq.
  destruct (Nat.eqb_spec (N_LONGS cfg) 0) as [H0|_]; [contradiction|].
  change (-1)%float with (PrimFloat.opp 1%float). apply div_opp_l.
Qed.

Lemma short_target_mirrors_long_target_witness :
  short_target notebook_settings = (- long_target notebook_settings)%float.
Proof.
  apply short_target_mirrors_long_target.
  - reflexivity.
  - cbn. lia.
Defined.

(* ===================================================================== *)
(** * Set-up and the first callback *)
(* ===================================================================== *)

Lemma rebalance_first_event {W} (h : Handler W) cfg context data w fd w1 :
  h _ get_factor_data w = Ok (fd, w1) ->
  (run h (rebalance cfg context data) w).1 !! 0 = Some (Returned get_factor_data fd).
Proof.
  intros H. unfold rebalance. rewrite run_bind. cbn [run call]. rewrite H.
  match goal with |- context [run h ?p w1] => destruct (run h p w1) as [tr0 r0] end.
  reflexivity.
Qed.

(** X15. On an algorithm that has no pipeline named 'factor_pipeline' yet,
    [initialize] succeeds; it schedules [rebalance] (week start, market
    open, US equities) and sets the two cost models.  On any day after it,
    [before_trading_start] finds the pipeline under the name it asks for
    and puts the table of [compute_factors] on the context, and this is the
    table [rebalance] then reads. *)
Theorem initialize_feeds_the_callbacks cfg context data algo d w :
  pipelines algo !! "factor_pipeline" = None ->
  exists algo' tr w',
    run_setup (initialize cfg context) algo = Ok algo' /\
    schedules algo' =
      schedules algo ++ [ {| sched_func := rebalance cfg; sched_date := week_start;
                             sched_time := market_open; sched_calendar := US_EQUITIES |} ] /\
    commission algo' = Some {| cost := 0.00075; min_trade_cost := 0.01 |} /\
    slippage algo' = Some {| volume_limit := 0.0025; price_impact := 0.01 |} /\
    run (engine algo' d) (before_trading_start context data) w = (tr, Ok (tt, w')) /\
    context_factor_data w' = Some (run_pipeline (compute_factors cfg) d) /\
    (run (engine algo' d) (rebalance cfg context data) w').1 !! 0
      = Some (Returned get_factor_data (run_pipeline (compute_factors cfg) d)).
Proof.
  intros Hfree. unfold initialize. cbn [run_setup setup rbind]. rewrite Hfree.
  cbn [run_setup setup rbind pipelines schedules commission slippage].
  eexists _, _, _. split; [reflexivity|].
  cbn [pipelines schedules commission slippage].
  split; [reflexivity|]. split; [reflexivity|]. split; [reflexivity|].
  unfold before_trading_start.
  cbn [run prog_bind call engine sim pipelines context_factor_data].
  rewrite lookup_insert_eq.
  cbn [run prog_bind call engine sim pipelines context_factor_data].
  split; [reflexivity|]. split; [reflexivity|].
  eapply rebalance_first_event. reflexivity.
Qed.

Lemma initialize_feeds_the_callbacks_witness :
  exists algo' tr w',
    run_setup (initialize small_settings Context) new_algo = Ok algo' /\
    schedules algo' =
      [ {| sched_func := rebalance small_settings; sched_date := week_start;
           sched_time := market_open; sched_calendar := US_EQUITIES |} ] /\
    commission algo' = Some {| cost := 0.00075; min_trade_cost := 0.01 |} /\
    slippage algo' = Some {| volume_limit := 0.0025; price_impact := 0.01 |} /\
    run (engine algo' day5) (before_trading_start Context BarData) (world_of [] [1; 2])
      = (tr, Ok (tt, w')) /\
    context_factor_data w' = Some (run_pipeline (compute_factors small_settings) day5) /\
    (run (engine algo' day5) (rebalance small_settings Context BarData) w').1 !! 0
      = Some (Returned get_factor_data (run_pipeline (compute_factors small_settings) day5)).
Proof.
  apply (initialize_feeds_the_callbacks small_settings Context BarData new_algo day5
           (world_of [] [1; 2])).
  reflexivity.
Defined.

(** X16. [initialize] cannot run twice on one algorithm: the second
    [attach_pipeline] under the same name is refused.  And on an algorithm
    where the name was never attached, [before_trading_start] fails at its
    first call, before anything is put on the context or recorded. *)
Theorem initialize_once_and_first cfg context data algo algo' d w :
  run_setup (initialize cfg context) algo = Ok algo' ->
  run_setup (initialize cfg context) algo' = Raise (EngineError 4) /\
  run (engine algo d) (before_trading_start context data) w
    = ([Raised (pipeline_output "factor_pipeline") (EngineError 1)], Raise (EngineError 1)).
Proof.
  unfold initialize. cbn [run_setup setup rbind].
  destruct (pipelines algo !! "factor_pipeline") as [p|] eqn:Hfree; [discriminate|].
  cbn [run_setup setup rbind pipelines]. intros H. injection H as <-.
  cbn [pipelines]. rewrite lookup_insert_eq. split; [reflexivity|].
  unfold before_trading_start. cbn [run prog_bind call engine]. rewrite Hfree. reflexivity.
Qed.

Lemma initialize_once_and_first_witness :
  exists algo',
    run_setup (initialize small_settings Context) new_algo = Ok algo' /\
    run_setup (initialize small_settings Context) algo' = Raise (EngineError 4) /\
    run (engine new_algo day5) (before_trading_start Context BarData) (world_of [] [1; 2])
      = ([Raised (pipeline_output "factor_pipeline") (EngineError 1)], Raise (EngineError 1)).
Proof.
  destruct (run_setup (initialize small_settings Context) new_algo) as [algo'|e] eqn:E.
  - exists algo'. split; [reflexivity|].
    exact (initialize_once_and_first small_settings Context BarData new_algo algo' day5
             (world_of [] [1; 2]) E).
  - cbn in E. discriminate.
Defined.

(* ===================================================================== *)
(** * Column labels of the alphalens notebook *)
(* ===================================================================== *)

Lemma list_ascii_of_string_app s1 s2 :
  list_ascii_of_string (s1 +:+ s2) = list_ascii_of_string s1 ++ list_ascii_of_string s2.
Proof.
  induction s1 as [|c s1 IH]; [reflexivity|].
  change (String c s1 +:+ s2) with (String c (s1 +:+ s2)).
  cbn [list_ascii_of_string app]. f_equal. exact IH.
Qed.

Lemma length_list_ascii_of_string s : length (list_ascii_of_string s) = String.length s.
Proof.
  induction s as [|c s IH]; [reflexivity|].
  cbn [String.length list_ascii_of_string length]. f_equal. exact IH.
Qed.

Lemma ascii_eqb_false (a b : Ascii.ascii) : a <> b -> Ascii.eqb a b = false.
Proof. intros H. destruct (Ascii.eqb_spec a b); [contradiction|reflexivity]. Qed.

Lemma line_of_no_newline s : newline ∉ s -> line_of s = s.
Proof.
  induction s as [|c s IH]; intros H; [reflexivity|].
  apply not_elem_of_cons in H as [Hc Hs]. cbn [line_of].
  rewrite ascii_eqb_false by congruence. rewrite IH by exact Hs. reflexivity.
Qed.

Lemma rindex_None c s : c ∉ s -> rindex c s = None.
Proof.
  induction s as [|x s IH]; intros H; [reflexivity|].
  apply not_elem_of_cons in H as [Hc Hs]. cbn [rindex].
  rewrite IH by exact Hs. rewrite ascii_eqb_false by congruence. reflexivity.
Qed.

Lemma rindex_last c l tail : c ∉ tail -> rindex c (l ++ c :: tail) = Some (length l).
Proof.
  intros H. induction l as [|x l IH]; cbn [app rindex length].
  - rewrite (rindex_None _ _ H), Ascii.eqb_refl. reflexivity.
  - rewrite IH. reflexivity.
Qed.

Lemma group_at_closed sym tail :
  sym <> [] -> newline ∉ sym -> newline ∉ tail -> rbracket ∉ tail ->
  group_at (sym ++ rbracket :: tail) = Some sym.
Proof.
  intros Hne Hnl Hnt Hrb. unfold group_at.
  rewrite line_of_no_newline.
  - destruct sym as [|x sym]; [contradiction|]. cbn [app].
    rewrite (rindex_last _ _ _ Hrb), take_app_length. reflexivity.
  - rewrite not_elem_of_app, not_elem_of_cons. split; [exact Hnl|].
    split; [discriminate|exact Hnt].
Qed.

Lemma findall_head fuel pre rest g :
  lbracket ∉ pre -> group_at rest = Some g -> length pre < fuel ->
  exists tl, findall_from fuel (pre ++ lbracket :: rest) = g :: tl.
Proof.
  intros Hpre Hg. revert fuel. induction pre as [|c pre IH]; intros fuel Hfuel.
  - destruct fuel as [|fuel]; [cbn in Hfuel; lia|].
    cbn [app findall_from]. rewrite Ascii.eqb_refl, Hg. eauto.
  - apply not_elem_of_cons in Hpre as [Hc Hpre].
    destruct fuel as [|fuel]; [cbn in Hfuel; lia|].
    cbn [app findall_from]. rewrite ascii_eqb_false by congruence.
    apply IH; [exact Hpre|]. cbn in Hfuel. lia.
Qed.

Lemma findall_no_bracket fuel s : lbracket ∉ s -> findall_from fuel s = [].
Proof.
  revert s. induction fuel as [|fuel IH]; intros s H; [reflexivity|].
  destruct s as [|c s]; [reflexivity|].
  apply not_elem_of_cons in H as [Hc Hs]. cbn [findall_from].
  rewrite ascii_eqb_false by congruence. apply IH, Hs.
Qed.

Lemma digits_no_bracket_nilempty u :
  lbracket ∉ list_ascii_of_string (DecimalString.NilEmpty.string_of_uint u).
Proof.
  induction u; cbn [DecimalString.NilEmpty.string_of_uint list_ascii_of_string];
    [apply not_elem_of_nil|..]; apply not_elem_of_cons; (split; [discriminate|assumption]).
Qed.

Lemma digits_no_bracket u :
  lbracket ∉ list_ascii_of_string (DecimalString.NilZero.string_of_uint u).
Proof.
  destruct u; try apply digits_no_bracket_nilempty.
  cbn. apply not_elem_of_cons. split; [discriminate|apply not_elem_of_nil].
Qed.

(** X17. The column label recovers the ticker: for an asset with a symbol
    that is not empty and holds no line break, the first match of the
    pattern in ['Equity(<sid> [<symbol>])'] is the symbol, whatever the sid
    is and also when the symbol itself contains brackets. *)
Theorem column_label_recovers_symbol sid symbol :
  symbol <> EmptyString ->
  newline ∉ list_ascii_of_string symbol ->
  column_label (str_Equity sid symbol) = Ok symbol.
Proof.
  intros Hne Hnl. unfold column_label, re_findall, str_Equity.
  destruct symbol as [|c0 s0] eqn:Hsym; [contradiction|]. rewrite <- Hsym in *.
  set (sid_d := DecimalString.NilZero.string_of_uint (Nat.to_uint sid)).
  rewrite <- length_list_ascii_of_string.
  rewrite !list_ascii_of_string_app.
  set (pre := list_ascii_of_string "Equity(" ++ list_ascii_of_string sid_d
              ++ [Ascii.ascii_of_nat 32]).
  set (sym := list_ascii_of_string symbol) in *.
  set (tail := [Ascii.ascii_of_nat 41]).
  replace (list_ascii_of_string "Equity(" ++ list_ascii_of_string sid_d ++
           list_ascii_of_string " [" ++ sym ++ list_ascii_of_string "])")
    with (pre ++ lbracket :: (sym ++ rbracket :: tail)).
  2:{ unfold pre. rewrite <- !app_assoc. reflexivity. }
  destruct (findall_head (length (pre ++ lbracket :: (sym ++ rbracket :: tail)))
              pre (sym ++ rbracket :: tail) sym) as [tl ->].
  - unfold pre. rewrite !not_elem_of_app. split; [|split].
    + cbn. rewrite !not_elem_of_cons. repeat (split; [discriminate|]). apply not_elem_of_nil.
    + apply digits_no_bracket.
    + apply not_elem_of_cons. split; [discriminate|apply not_elem_of_nil].
  - apply group_at_closed.
    + unfold sym. rewrite Hsym. discriminate.
    + exact Hnl.
    + apply not_elem_of_cons. split; [discriminate|apply not_elem_of_nil].
    + apply not_elem_of_cons. split; [discriminate|apply not_elem_of_nil].
  - rewrite length_app. cbn [length]. lia.
  - cbn [map]. unfold sym. rewrite string_of_list_ascii_of_string. reflexivity.
Qed.

Lemma column_label_recovers_symbol_witness :
  column_label (str_Equity 12 "BRK.B") = Ok "BRK.B"%string.
Proof.
  apply column_label_recovers_symbol.
  - discriminate.
  - cbn. rewrite !not_elem_of_cons. repeat (split; [discriminate|]). apply not_elem_of_nil.
Defined.

(** X18. A column name without an opening bracket has no match, and the
    [[0]] raises IndexError; the name of an asset without a symbol,
    ['Equity(<sid>)'], is such a name. *)
Theorem column_label_without_symbol :
  (forall col, lbracket ∉ list_ascii_of_string col -> column_label col = Raise IndexError) /\
  (forall sid, column_label (str_Equity sid "") = Raise IndexError).
Proof.
  assert (H : forall col, lbracket ∉ list_ascii_of_string col ->
                          column_label col = Raise IndexError).
  { intros col Hcol. unfold column_label, re_findall.
    rewrite (findall_no_bracket _ _ Hcol). reflexivity. }
  split; [exact H|]. intros sid. apply H. unfold str_Equity.
  rewrite !list_ascii_of_string_app, !not_elem_of_app. split; [|split].
  - cbn. rewrite !not_elem_of_cons. repeat (split; [discriminate|]). apply not_elem_of_nil.
  - apply digits_no_bracket.
  - cbn. apply not_elem_of_cons. split; [discriminate|apply not_elem_of_nil].
Qed.

(* ===================================================================== *)
(** * From the window of returns to the flags *)
(* ===================================================================== *)

Lemma NoDup_lookup_eq (l : list nat) i j a :
  NoDup l -> l !! i = Some a -> l !! j = Some a -> i = j.
Proof. intros Hnd Hi Hj. exact (NoDup_lookup l i j a Hnd Hi Hj). Qed.

Lemma flag_needs_score asc N data i s :
  data !! i = Some s -> isna s = true ->
  List.nth i (map (rank_le N) (rank asc data)) false = false.
Proof.
  intros Hs Hna. destruct (List.nth i _ false) eqn:Hflag; [|reflexivity].
  pose proof (flag_in_range _ _ _ _ Hflag) as Hi.
  apply flag_spec in Hflag as [Hv _]; [|exact Hi].
  unfold valid_at in Hv. rewrite (key_of_lookup _ _ _ Hs) in Hv. congruence.
Qed.

(** X19. From the returns to the trades: an asset whose latest return is
    missing, or that has at most one return in the window, is never flagged
    long or short in the factor table of the day, and its row, when it
    passes the screen, has no rank. *)
Theorem missing_returns_never_selected cfg today assets window adv j a fd :
  rectangular window ->
  length assets = ncols window ->
  1 <= length window ->
  NoDup assets ->
  assets !! j = Some a ->
  isna (List.last (column j window) PrimFloat.nan) = true \/
  count_notna (column j window) <= 1 ->
  factor_pipeline cfg today assets window adv = Ok fd ->
  (a ∉ long_set fd) /\ (a ∉ short_set fd) /\
  (forall r, r ∈ fd -> row_asset r = a -> ranking r = None).
Proof.
  intros Hrect Hlen Hrows Hnd Ha Hcase.
  assert (Hj : j < ncols window).
  { rewrite <- Hlen. apply lookup_lt_Some in Ha. exact Ha. }
  unfold factor_pipeline, mean_reversion_term.
  destruct (compute_cells (MeanReversion.make cfg) today assets
              (repeat PrimFloat.nan (length assets)) window Hrect
              ltac:(rewrite repeat_length; exact Hlen) Hrows)
    as (scores & -> & _ & Hcells).
  pose proof (Hcells j Hj) as Hs.
  pose proof (score_cell_missing (column j window) Hcase) as Hna.
  cbn [rbind]. intros H. injection H as <-.
  split; [|split].
  - intros Hin. apply elem_of_long_set in Hin as (i & Hi & _ & Hflag).
    cbn [universe mean_reversion] in Hi, Hflag.
    rewrite (NoDup_lookup_eq _ _ _ _ Hnd Hi Ha) in Hflag.
    unfold bottom in Hflag. rewrite (flag_needs_score _ _ _ _ _ Hs Hna) in Hflag. discriminate.
  - intros Hin. apply elem_of_short_set in Hin as (i & Hi & _ & Hflag).
    cbn [universe mean_reversion] in Hi, Hflag.
    rewrite (NoDup_lookup_eq _ _ _ _ Hnd Hi Ha) in Hflag.
    unfold top in Hflag. rewrite (flag_needs_score _ _ _ _ _ Hs Hna) in Hflag. discriminate.
  - intros r Hr Hra. apply elem_of_run_pipeline in Hr as [i Hr].
    apply pipeline_row_Some in Hr as (_ & a' & Hi & ->).
    cbn [universe] in Hi. cbn [row_asset] in Hra. subst a'.
    cbn [ranking compute_factors col_ranking mean_reversion].
    rewrite (NoDup_lookup_eq _ _ _ _ Hnd Hi Ha).
    rewrite nth_rank by (apply lookup_lt_Some in Hs; exact Hs).
    rewrite (key_of_lookup _ _ _ Hs), Hna. reflexivity.
Qed.

Lemma missing_returns_never_selected_witness :
  exists fd,
    factor_pipeline small_settings 0 [7; 8] window_new_listing [10; 20]%float = Ok fd /\
    (8 ∉ long_set fd) /\ (8 ∉ short_set fd) /\
    (forall r, r ∈ fd -> row_asset r = 8 -> ranking r = None).
Proof.
  destruct (factor_pipeline small_settings 0 [7; 8] window_new_listing [10; 20]%float)
    as [fd|e] eqn:E.
  - exists fd. split; [reflexivity|].
    apply (missing_returns_never_selected small_settings 0 [7; 8] window_new_listing
             [10; 20]%float 1 8 fd).
    + repeat constructor.
    + reflexivity.
    + cbn. lia.
    + repeat (apply NoDup_cons_2; [rewrite ?elem_of_cons, elem_of_nil; intuition lia|]).
      apply NoDup_nil_2.
    + reflexivity.
    + right. vm_compute. lia.
    + exact E.
  - vm_compute in E. discriminate.
Defined.

(* ===================================================================== *)
(** * The flags in terms of the ranking column *)
(* ===================================================================== *)











